(** * mcp-fetch: the fetch tool of [src/index.ts]

    A shallow embedding of the tool's request handler, of [fetchUrl] and of
    [extractContentFromHtml], followed by the properties of the content
    pipeline (pagination, image harvesting, error reporting).

    Modelling conventions.
    - A JavaScript string is the list of its UTF-16 code units; [length] and
      [slice] count code units, as [String.prototype.length] and
      [String.prototype.slice] do.
    - A JavaScript number is an integer of [Z]: the tool's numeric arguments
      ([maxLength], [startIndex], an HTTP status) are taken integer valued.
      Doubles are exact on integers up to [MAX_SAFE_INTEGER] = 2^53 - 1; a
      theorem about the number that the truncation notice prints assumes
      that [startIndex + maxLength] is in this range.  Fractional arguments
      are outside the model.
    - [async] functions are functions into [completion]: a promise either
      fulfils ([Return]) or rejects ([Throw]); [await] is [bind].
    - What the program imports (node-fetch, jsdom, Readability, turndown,
      pdf-parse, zod, the Unicode case mapping) is a field of the class
      [World]; every theorem holds for every instance of it. *)

From Stdlib Require Import ZArith NArith List String Ascii Bool Lia.
From Stdlib Require Import DecimalString.
From Stdlib Require DecimalZ.
Import ListNotations.

Set Implicit Arguments.
Local Open Scope Z_scope.

(* ===================================================================== *)
(** ** JavaScript strings and arrays *)
(* ===================================================================== *)

Module Js.

Definition code_unit := N.
Definition js_string := list code_unit.

(** A string literal of the source: one code unit per (ASCII) character. *)
Definition lit (s : string) : js_string :=
  List.map N_of_ascii (list_ascii_of_string s).

(** The escape [\n] of a source literal. *)
Definition nl : js_string := [10%N].

(** [s.length], [a.length]. *)
Definition length {A} (l : list A) : Z := Z.of_nat (List.length l).

(** The relative index of [slice]: a negative index counts from the end,
    and the result is clamped to [0, len]. *)
Definition relative_index (len i : Z) : Z :=
  if i <? 0 then Z.max (len + i) 0 else Z.min i len.

(** [String.prototype.slice(start, end)] and [Array.prototype.slice(start,
    end)]: the elements from [start] up to, not including, [end]. *)
Definition slice {A} (l : list A) (start end_ : Z) : list A :=
  let len := length l in
  let from := relative_index len start in
  let to := relative_index len end_ in
  if from <? to
  then firstn (Z.to_nat (to - from)) (skipn (Z.to_nat from) l)
  else [].

(** [Number.MAX_SAFE_INTEGER], 2^53 - 1: up to it the integers are
    doubles, their sums are exact, and they print as their decimal
    digits. *)
Definition MAX_SAFE_INTEGER : Z := 2 ^ 53 - 1.

(** [`${n}`] for an integer-valued number: its decimal digits (the form
    that JavaScript prints below 10^21). *)
Definition number_to_string (n : Z) : js_string :=
  lit (NilZero.string_of_int (Z.to_int n)).

Fixpoint starts_with (s p : js_string) {struct p} : bool :=
  match p, s with
  | [], _ => true
  | _ :: _, [] => false
  | a :: p', b :: s' => N.eqb a b && starts_with s' p'
  end.

(** [s.includes(t)]: [t] occurs in [s] as a substring. *)
Fixpoint includes (s t : js_string) : bool :=
  starts_with s t ||
  match s with
  | [] => false
  | _ :: s' => includes s' t
  end.

(** [a.join(sep)]. *)
Fixpoint join (sep : js_string) (l : list js_string) : js_string :=
  match l with
  | [] => []
  | [x] => x
  | x :: rest => x ++ sep ++ join sep rest
  end.

(** Truthiness of a string: the empty string is falsy. *)
Definition truthy (s : js_string) : bool :=
  match s with [] => false | _ :: _ => true end.

(** [x || ""] on a string. *)
Definition or_empty (x : js_string) : js_string :=
  if truthy x then x else [].

(** What a [throw] carries: an [Error] with its message, or another value,
    kept as [String(value)]. *)
Inductive thrown :=
| ErrorObject (message : js_string)
| OtherValue (printed : js_string).

(** The outcome of an [async] function or of a library call. *)
Inductive completion (A : Type) :=
| Return (a : A)
| Throw (e : thrown).
Arguments Return {A} a.
Arguments Throw {A} e.

Definition bind {A B} (c : completion A) (k : A -> completion B)
  : completion B :=
  match c with
  | Return a => k a
  | Throw e => Throw e
  end.

End Js.

Import Js.

Declare Scope js_scope.
Delimit Scope js_scope with js.
Notation "x <- c ;; k" := (bind c (fun x => k))
  (at level 61, c at next level, right associativity) : js_scope.
Local Open Scope js_scope.

(* ===================================================================== *)
(** ** Data of the program and of its libraries *)
(* ===================================================================== *)

(** [interface Image]. *)
Record Image := { src : js_string; alt : js_string }.

(** [interface ExtractedContent]. *)
Record ExtractedContent := { markdown : js_string; images : list Image }.

(** [interface FetchResult]; [imageUrls] is optional. *)
Record FetchResult := {
  content : js_string;
  prefix : js_string;
  imageUrls : option (list js_string)
}.

(** An [img] element as the DOM shows it: the [src] property, which is the
    resolved URL, and the [alt] content attribute, which may be absent. *)
Record HTMLImageElement := {
  img_src : js_string;
  img_alt_attribute : option js_string
}.

(** The [alt] property reflects the attribute, the empty string when the
    attribute is absent. *)
Definition img_alt (img : HTMLImageElement) : js_string :=
  match img_alt_attribute img with
  | Some a => a
  | None => []
  end.

(** The article of [Readability.parse()], of which the program reads
    [content] only; [content] may be null. *)
Record Article := { article_content : option js_string }.

(** The result of [pdfparse], of which the program reads [text] only. *)
Record PdfData := { pdf_text : option js_string }.

(** A [Response] of node-fetch after the headers arrived.  [text] is the
    outcome of [await response.text()]; [arrayBuffer] is the outcome of
    [await response.arrayBuffer()] where the program asks for it, which is
    after [text()] has been read. *)
Record Response := {
  status : Z;
  header_content_type : option js_string;
  text : completion js_string;
  arrayBuffer : completion (list Byte.byte)
}.

(** [response.ok]: the status is in the range 200-299. *)
Definition ok (r : Response) : bool :=
  (200 <=? status r) && (status r <? 300).

(** The arguments of a call as the client sent them; a field may be
    missing. *)
Record RawArgs := {
  arg_url : option js_string;
  arg_maxLength : option Z;
  arg_startIndex : option Z;
  arg_raw : option bool
}.

(** The output type of [FetchArgsSchema]. *)
Record FetchArgs := {
  url : js_string;
  maxLength : Z;
  startIndex : Z;
  raw : bool
}.

(** The [params] of a [tools/call] request. *)
Record CallToolParams := {
  name : js_string;
  arguments : option RawArgs
}.

(** What the handler returns: the text of its single content item and the
    [isError] flag (absent is [false]). *)
Record CallToolResult := {
  result_text : js_string;
  isError : bool
}.

(** What the program imports. *)
Class World := {
  (** [fetch(url, { headers: { "User-Agent": userAgent } })] *)
  fetch : js_string -> js_string -> completion Response;
  (** [String.prototype.toLowerCase] *)
  toLowerCase : js_string -> js_string;
  (** [new Readability(new JSDOM(html, { url }).window.document).parse()] *)
  Readability_parse : js_string -> js_string -> completion (option Article);
  (** [Array.from(new JSDOM(content).window.document.querySelectorAll("img"))],
      the [img] elements in document order *)
  querySelectorAll_img : js_string -> completion (list HTMLImageElement);
  (** [new TurndownService({ headingStyle: "atx", codeBlockStyle: "fenced" })
      .turndown(content)] *)
  turndown : js_string -> completion js_string;
  (** [pdfparse(bytes)] *)
  pdfparse : list Byte.byte -> completion (option PdfData);
  (** [z.string().url()] accepts the string *)
  is_url : js_string -> bool;
  (** [`${parsed.error}`] of a failed [safeParse] *)
  zod_error : option RawArgs -> js_string
}.

(* ===================================================================== *)
(** ** The program *)
(* ===================================================================== *)

Definition DEFAULT_USER_AGENT_AUTONOMOUS : js_string :=
  lit "Mozilla/5.0 (Macintosh; Intel Mac OS X 10_15_7) AppleWebKit/537.36 (KHTML, like Gecko) Chrome/136.0.0.0 Safari/537.36".

Definition string_eqb (a b : js_string) : bool :=
  if list_eq_dec N.eq_dec a b then true else false.

(** [FetchArgsSchema.safeParse(args)]: [url] is required and must be a URL,
    [maxLength] is positive and at most 1000000 (default 20000),
    [startIndex] is at least 0 (default 0), [raw] defaults to [false]. *)
Definition FetchArgsSchema_safeParse `{World} (args : option RawArgs)
  : option FetchArgs :=
  match args with
  | None => None
  | Some a =>
    match arg_url a with
    | None => None
    | Some u =>
      let m := match arg_maxLength a with Some m => m | None => 20000 end in
      let s := match arg_startIndex a with Some s => s | None => 0 end in
      let r := match arg_raw a with Some r => r | None => false end in
      if is_url u && (0 <? m) && (m <=? 1000000) && (0 <=? s)
      then Some {| url := u; maxLength := m; startIndex := s; raw := r |}
      else None
    end
  end.

Definition simplify_failure : js_string :=
  lit "<e>Page failed to be simplified from HTML</e>".

(** The callback of [imgElements.map]: [src] and [alt || ""] of an
    element. *)
Definition image_of (img : HTMLImageElement) : Image :=
  let src := img_src img in
  let alt := or_empty (img_alt img) in
  {| src := src; alt := alt |}.

Definition extractContentFromHtml `{World} (html url : js_string)
  : completion (ExtractedContent + js_string) :=
  article <- Readability_parse html url ;;
  match article with
  | None => Return (inr simplify_failure)
  | Some a =>
    match article_content a with
    | None => Return (inr simplify_failure)
    | Some article_content =>
      if negb (truthy article_content) then Return (inr simplify_failure)
      else
        imgElements <- querySelectorAll_img article_content ;;
        let images := List.map image_of imgElements in
        markdown <- turndown article_content ;;
        Return (inl {| markdown := markdown; images := images |})
    end
  end.

Definition fetch_failure (url : js_string) (status : Z) : js_string :=
  lit "Failed to fetch " ++ url ++ lit " - status code "
      ++ number_to_string status.

Definition raw_prefix (contentType : js_string) : js_string :=
  lit "Content type " ++ contentType
      ++ lit " cannot be simplified to markdown, but here is the raw content:"
      ++ nl.

(** [response.headers.get("content-type") || ""]. *)
Definition contentType_of (response : Response) : js_string :=
  match header_content_type response with
  | Some c => or_empty c
  | None => []
  end.

(** The two tests of [fetchUrl] on the body and the content type. *)
Definition isHtml_of `{World} (text contentType : js_string) : bool :=
  includes (toLowerCase text) (lit "<html")
  || includes contentType (lit "text/html").

Definition isPdf_of (contentType : js_string) : bool :=
  includes contentType (lit "application/pdf").

(** [(await pdfparse(bytes))?.text || ""] once [pdfparse] has fulfilled. *)
Definition pdf_text_or_empty (parsed : option PdfData) : js_string :=
  or_empty match parsed with
           | None => []
           | Some data =>
             match pdf_text data with
             | None => []
             | Some t => t
             end
           end.

Definition fetchUrl `{World} (url userAgent : js_string) (forceRaw : bool)
  : completion FetchResult :=
  response <- fetch url userAgent ;;
  if negb (ok response)
  then Throw (ErrorObject (fetch_failure url (status response)))
  else
    let contentType := contentType_of response in
    text <- text response ;;
    let isHtml := isHtml_of text contentType in
    let isPdf := isPdf_of contentType in
    if isHtml && negb forceRaw then
      result <- extractContentFromHtml text url ;;
      match result with
      | inr message =>
        Return {| content := message; prefix := []; imageUrls := None |}
      | inl extracted =>
        let imageUrls := slice (List.map src (images extracted)) 0 10 in
        Return {| content := markdown extracted; prefix := [];
                  imageUrls := Some imageUrls |}
      end
    else if isPdf && negb forceRaw then
      bytes <- arrayBuffer response ;;
      parsed <- pdfparse bytes ;;
      let text := pdf_text_or_empty parsed in
      Return {| content := text; prefix := []; imageUrls := Some [] |}
    else
      Return {| content := text; prefix := raw_prefix contentType;
                imageUrls := None |}.

(** The notice appended to a truncated content. *)
Definition truncation_notice (next : Z) : js_string :=
  nl ++ nl
     ++ lit "<e>Content truncated. Call the fetch tool with a start_index of "
     ++ number_to_string next ++ lit " to get more content.</e>".

(** The pagination step of the handler: [finalContent] from [content]. *)
Definition paginate (content : js_string) (startIndex maxLength : Z)
  : js_string :=
  if length content >? maxLength
  then slice content startIndex (startIndex + maxLength)
             ++ truncation_notice (startIndex + maxLength)
  else content.

Definition imagesSection_of (imageUrls : option (list js_string))
  : js_string :=
  match imageUrls with
  | Some urls =>
    if length urls >? 0
    then nl ++ nl ++ lit "Images found in page:" ++ nl
            ++ join nl (List.map (fun url => lit "- " ++ url) urls)
    else []
  | None => []
  end.

(** The text of a successful answer, from the parsed arguments and the
    result of [fetchUrl]. *)
Definition success_text (data : FetchArgs) (r : FetchResult) : js_string :=
  let finalContent :=
    paginate (content r) (startIndex data) (maxLength data) in
  let imagesSection := imagesSection_of (imageUrls r) in
  prefix r ++ lit "Contents of " ++ url data ++ lit ":" ++ nl
         ++ finalContent ++ imagesSection.

(** The body of the handler's [try]. *)
Definition call_tool_try `{World} (params : CallToolParams)
  : completion js_string :=
  if negb (string_eqb (name params) (lit "fetch"))
  then Throw (ErrorObject (lit "Unknown tool: " ++ name params))
  else
    match FetchArgsSchema_safeParse (arguments params) with
    | None =>
      Throw (ErrorObject (lit "Invalid arguments: "
                              ++ zod_error (arguments params)))
    | Some data =>
      r <- fetchUrl (url data) DEFAULT_USER_AGENT_AUTONOMOUS (raw data) ;;
      Return (success_text data r)
    end.

(** [error instanceof Error ? error.message : String(error)]. *)
Definition error_text (e : thrown) : js_string :=
  match e with
  | ErrorObject message => message
  | OtherValue printed => printed
  end.

(** The handler of [CallToolSchema]: the [try] and its [catch]. *)
Definition call_tool `{World} (params : CallToolParams) : CallToolResult :=
  match call_tool_try params with
  | Return t => {| result_text := t; isError := false |}
  | Throw error =>
    {| result_text := lit "Error: " ++ error_text error; isError := true |}
  end.

(* ===================================================================== *)
(** ** Reading the pagination step as a page *)
(* ===================================================================== *)

(** The three things the pagination step decides: the slice of the content
    it keeps, whether it appends the notice, and the index the notice
    names. *)
Record PaginatedOutput := {
  page_slice : js_string;
  truncated : bool;
  nextStartIndex : option Z
}.

(** The same branch as [paginate], with the parts kept apart. *)
Definition page (content : js_string) (startIndex maxLength : Z)
  : PaginatedOutput :=
  if length content >? maxLength
  then {| page_slice := slice content startIndex (startIndex + maxLength);
          truncated := true;
          nextStartIndex := Some (startIndex + maxLength) |}
  else {| page_slice := content; truncated := false;
          nextStartIndex := None |}.

(** The text of a page: the slice, then the notice if there is one. *)
Definition render (p : PaginatedOutput) : js_string :=
  page_slice p ++
  match nextStartIndex p with
  | Some next => truncation_notice next
  | None => []
  end.

(** The start indices 0, M, 2M, ... below [L]. *)
Definition page_starts (L M : Z) : list Z :=
  List.map (fun k => Z.of_nat k * M) (seq 0 (Z.to_nat ((L + M - 1) / M))).

(** The images of a result as the handler reads them: an absent list is no
    image. *)
Definition image_list (r : FetchResult) : list js_string :=
  match imageUrls r with
  | Some urls => urls
  | None => []
  end.

(* ===================================================================== *)
(** ** Scripted worlds, for concrete runs *)
(* ===================================================================== *)

(** [toLowerCase] on ASCII text. *)
Definition ascii_toLowerCase (s : js_string) : js_string :=
  List.map (fun c => if (65 <=? c) && (c <=? 90) then c + 32 else c)%N s.

(** What each library answers in one run. *)
Record Script := {
  on_fetch : completion Response;
  on_Readability : completion (option Article);
  on_querySelectorAll : completion (list HTMLImageElement);
  on_turndown : completion js_string;
  on_pdfparse : completion (option PdfData)
}.

Definition scripted (s : Script) : World := {|
  fetch := fun _ _ => on_fetch s;
  toLowerCase := ascii_toLowerCase;
  Readability_parse := fun _ _ => on_Readability s;
  querySelectorAll_img := fun _ => on_querySelectorAll s;
  turndown := fun _ => on_turndown s;
  pdfparse := fun _ => on_pdfparse s;
  is_url := fun u =>
    starts_with u (lit "http://") || starts_with u (lit "https://");
  zod_error := fun _ => lit "ZodError"
|}.

(** A response of node-fetch with a body that decodes to [body]: a body is
    read once, so the [arrayBuffer()] that follows [text()] rejects. *)
Definition node_fetch_response (url : js_string) (status : Z)
           (contentType : option js_string) (body : js_string) : Response :=
  {| status := status;
     header_content_type := contentType;
     text := Return body;
     arrayBuffer :=
       Throw (ErrorObject (lit "body used already for: " ++ url)) |}.

(** A call of the tool [fetch]. *)
Definition fetch_call (url : js_string) (maxLength startIndex : option Z)
  : CallToolParams :=
  {| name := lit "fetch";
     arguments := Some {| arg_url := Some url; arg_maxLength := maxLength;
                          arg_startIndex := startIndex;
                          arg_raw := None |} |}.

(** The libraries that are not reached in a run answer nothing. *)
Definition idle (resp : completion Response) : Script :=
  {| on_fetch := resp;
     on_Readability := Return None;
     on_querySelectorAll := Return [];
     on_turndown := Return [];
     on_pdfparse := Return None |}.

(** A server that answers [url] with status 200 and a [text/plain] body. *)
Definition plain_text_world (url body : js_string) : World :=
  scripted (idle (Return (node_fetch_response
                            url 200 (Some (lit "text/plain")) body))).

(** A server that answers [url] with an HTML page in which Readability
    finds the article [content], jsdom finds the elements [imgs], and which
    turndown converts to [md]. *)
Definition article_world (url html content : js_string)
           (imgs : list HTMLImageElement) (md : js_string) : World :=
  scripted
    {| on_fetch :=
         Return (node_fetch_response url 200 (Some (lit "text/html")) html);
       on_Readability := Return (Some {| article_content := Some content |});
       on_querySelectorAll := Return imgs;
       on_turndown := Return md;
       on_pdfparse := Return None |}.

(** A server that answers [url] with status 200 and an
    [application/pdf] body, and a PDF parser that would end as [parsed]. *)
Definition pdf_world (url body : js_string)
           (parsed : completion (option PdfData)) : World :=
  scripted
    {| on_fetch :=
         Return (node_fetch_response url 200
                                     (Some (lit "application/pdf")) body);
       on_Readability := Return None;
       on_querySelectorAll := Return [];
       on_turndown := Return [];
       on_pdfparse := parsed |}.

(** The scenario of the specification: the page at [scenario_url] holds
    an article with a heading and a paragraph with images (attribute
    values are written in single quotes here). *)
Definition scenario_url : js_string := lit "http://example.com/".

Definition scenario_html : js_string :=
  lit "<html><body><article><h1>T</h1><p>Hello <img src='a.png' alt='A'></p></article></body></html>".

Definition scenario_article : js_string :=
  lit "<div><h1>T</h1><p>Hello <img src='http://example.com/a.png' alt='A'></p></div>".

(** The element [<img src='a.png'>] of the page, with the given [alt]
    attribute; its [src] property is resolved against the page. *)
Definition scenario_img (alt : option js_string) : HTMLImageElement :=
  {| img_src := lit "http://example.com/a.png"; img_alt_attribute := alt |}.

Definition scenario_markdown (alt : js_string) : js_string :=
  lit "# T" ++ nl ++ nl ++ lit "Hello ![" ++ alt
      ++ lit "](http://example.com/a.png)".

Definition scenario_world (imgs : list HTMLImageElement) (md : js_string)
  : World :=
  article_world scenario_url scenario_html scenario_article imgs md.

(** The elements [<img src='1.png'>], ..., [<img src='n.png'>]. *)
Definition numbered_imgs (n : nat) : list HTMLImageElement :=
  List.map (fun k =>
              {| img_src := lit "http://example.com/"
                                ++ number_to_string (Z.of_nat k)
                                ++ lit ".png";
                 img_alt_attribute := None |}) (seq 1 n).

(* ===================================================================== *)
(** ** The tool list, the command line and the start of the server *)
(* ===================================================================== *)



(** [mode: 'stdio' | 'http']. *)
Inductive Mode := stdio | http.

(** A step that may end the process with [process.exit(code)] after
    writing [stderr]. *)
Inductive or_exit (A : Type) :=
| Go (a : A)
| Exit (stderr : js_string) (code : Z).
Arguments Go {A} a.
Arguments Exit {A} stderr code.

Definition invalid_mode (modeValue : js_string) : js_string :=
  lit "Invalid mode: " ++ modeValue
      ++ lit ". Valid options are: stdio, http" ++ nl.

(** The loop of [parseArgs] from an index [i] on: [args] is what is left
    of the arguments from [i], so [args[i]] is its head, [i + 1 <
    args.length] says that its tail is not empty, and [args[i + 1]] is the
    head of the tail.  The index moves by one: the value of a flag is
    looked at again as an argument. *)
Fixpoint parseArgs_loop (args : list js_string) (mode : Mode)
  : or_exit Mode :=
  match args with
  | [] => Go mode
  | arg :: rest =>
    if string_eqb arg (lit "--mode") then
      match rest with
      | [] => parseArgs_loop rest mode
      | modeValue :: _ =>
        if string_eqb modeValue (lit "stdio") then parseArgs_loop rest stdio
        else if string_eqb modeValue (lit "http")
             then parseArgs_loop rest http
             else Exit (invalid_mode modeValue) 1
      end
    else parseArgs_loop rest mode
  end.

(** [parseArgs], from [process.argv]. *)
Definition parseArgs (argv : list js_string) : or_exit Mode :=
  let args := slice argv 2 (length argv) in
  parseArgs_loop args stdio.

(** [`${error}`]: an [Error] prints as its name and its message, the name
    alone when the message is empty; [ErrorObject] stands for an instance
    whose name is "Error". *)
Definition thrown_to_string (e : thrown) : js_string :=
  match e with
  | ErrorObject message =>
    if truthy message then lit "Error: " ++ message else lit "Error"
  | OtherValue printed => printed
  end.

(** [runServerStdio]; [connect] is the outcome of
    [server.connect(new StdioServerTransport())]. *)
Definition runServerStdio (connect : completion unit) : completion unit :=
  _ <- connect ;; Return tt.

Definition runServerHTTP : completion unit :=
  Throw (ErrorObject (lit "HTTP server mode not implemented yet")).

(** How the process stands once [main] has settled: it serves requests,
    or it has left. *)
Inductive Process :=
| Serving
| Exited (stderr : js_string) (code : Z).

(** [main().catch(...)]. *)
Definition main (connect : completion unit) (argv : list js_string)
  : Process :=
  match parseArgs argv with
  | Exit stderr code => Exited stderr code
  | Go mode =>
    match match mode with
          | stdio => runServerStdio connect
          | http => runServerHTTP
          end with
    | Return _ => Serving
    | Throw error =>
      Exited (lit "Fatal error running server: " ++ thrown_to_string error
                  ++ nl) 1
    end
  end.

(* ===================================================================== *)
(** ** Facts about [slice], [includes] and [join] *)
(* ===================================================================== *)

Section SliceFacts.

Context {A : Type}.
Implicit Types (l : list A) (s e M : Z).

Lemma length_nonneg l : 0 <= length l.
Proof. unfold length. lia. Qed.

Lemma length_app_Z l1 l2 : length (l1 ++ l2) = length l1 + length l2.
Proof. unfold length. rewrite length_app. lia. Qed.

(** With a start and a width that are not negative, [slice] is
    [firstn] of [skipn]. *)
Lemma slice_window l s M :
  0 <= s -> 0 <= M ->
  slice l s (s + M) = firstn (Z.to_nat M) (skipn (Z.to_nat s) l).
Proof.
  intros Hs HM. unfold slice, relative_index, length.
  set (L := Z.of_nat (List.length l)).
  assert (HL : L = Z.of_nat (List.length l)) by reflexivity.
  destruct (Z.ltb_spec s 0); [lia|].
  destruct (Z.ltb_spec (s + M) 0); [lia|].
  destruct (Z.ltb_spec (Z.min s L) (Z.min (s + M) L)) as [Hlt|Hge].
  - assert (s < L) by lia. rewrite (Z.min_l s L) by lia.
    destruct (Z.le_gt_cases (s + M) L).
    + rewrite Z.min_l by lia. f_equal. lia.
    + rewrite Z.min_r by lia.
      rewrite !firstn_all2; auto; rewrite length_skipn; lia.
  - destruct (Z.eq_dec M 0) as [->|].
    + reflexivity.
    + rewrite skipn_all2 by lia. now rewrite firstn_nil.
Qed.

(** A start at or past the end gives the empty slice, whatever the end. *)
Lemma slice_past_end l s e : length l <= s -> slice l s e = [].
Proof.
  intros Hs. pose proof (length_nonneg l) as H0.
  unfold slice, relative_index. set (L := length l) in *.
  destruct (Z.ltb_spec s 0); [lia|].
  rewrite (Z.min_r s L) by lia.
  destruct (Z.ltb_spec e 0);
    match goal with |- context [?a <? ?b] => destruct (Z.ltb_spec a b) end;
    try reflexivity; lia.
Qed.

(** A window that reaches the end keeps all that remains. *)
Lemma slice_to_end l s M :
  0 <= s -> length l <= s + M ->
  slice l s (s + M) = skipn (Z.to_nat s) l.
Proof.
  intros Hs Hend. destruct (Z.le_gt_cases (length l) s) as [Hout|Hin].
  - rewrite slice_past_end by assumption.
    rewrite skipn_all2; [reflexivity|]. unfold length in Hout. lia.
  - rewrite slice_window by lia.
    apply firstn_all2. rewrite length_skipn. unfold length in *. lia.
Qed.

(** A window inside the list has exactly its width. *)
Lemma length_slice_inside l s M :
  0 <= s -> 0 <= M -> s + M <= length l -> length (slice l s (s + M)) = M.
Proof.
  intros Hs HM Hin. rewrite slice_window by assumption.
  unfold length in *. rewrite length_firstn, length_skipn. lia.
Qed.

(** In general a slice is no longer than what remains after its start. *)
Lemma length_slice_le l s M :
  0 <= s -> 0 <= M -> length (slice l s (s + M)) <= Z.min M (length l).
Proof.
  intros Hs HM. rewrite slice_window by assumption.
  unfold length. rewrite length_firstn, length_skipn. lia.
Qed.

Lemma slice_first l n : 0 <= n -> slice l 0 n = firstn (Z.to_nat n) l.
Proof.
  intros Hn. change n with (0 + n) at 1. now rewrite slice_window.
Qed.

(** Consecutive chunks of width [m] make up a prefix. *)
Lemma chunks_prefix l (m n : nat) :
  List.concat (List.map (fun k => firstn m (skipn (k * m) l)) (seq 0 n))
  = firstn (n * m) l.
Proof.
  induction n as [|n IH].
  - reflexivity.
  - rewrite seq_S, map_app, concat_app, IH. cbn [List.map List.concat Nat.add].
    rewrite app_nil_r.
    rewrite <- (firstn_skipn (n * m) (firstn (S n * m) l)).
    rewrite firstn_firstn, skipn_firstn_comm.
    replace (Nat.min (n * m) (S n * m)) with (n * m)%nat by lia.
    replace (S n * m - n * m)%nat with m by lia.
    reflexivity.
Qed.

End SliceFacts.

Section IncludesFacts.

Implicit Types (s t a b : js_string).

Lemma starts_with_app t b : starts_with (t ++ b) t = true.
Proof.
  induction t as [|c t IH]; [reflexivity|].
  cbn. now rewrite N.eqb_refl, IH.
Qed.

Lemma starts_with_inv s t :
  starts_with s t = true -> exists b, s = t ++ b.
Proof.
  revert s. induction t as [|c t IH]; intros s H.
  - now exists s.
  - destruct s as [|d s]; [discriminate|]. cbn in H.
    apply andb_prop in H as [Hc Ht]. apply N.eqb_eq in Hc as ->.
    destruct (IH _ Ht) as [b ->]. now exists b.
Qed.

Lemma includes_here s t : starts_with s t = true -> includes s t = true.
Proof. intros H. destruct s; cbn in *; now rewrite H. Qed.

Lemma includes_app_l a s t : includes s t = true -> includes (a ++ s) t = true.
Proof.
  intros H. induction a as [|c a IH]; [exact H|].
  cbn. rewrite IH. apply orb_true_r.
Qed.

(** What [includes] decides: an occurrence as a substring. *)
Lemma includes_spec s t :
  includes s t = true <-> exists a b, s = a ++ t ++ b.
Proof.
  split.
  - induction s as [|c s IH]; cbn; intros H.
    + rewrite orb_false_r in H. apply starts_with_inv in H as [b ->].
      now exists [], b.
    + apply orb_prop in H as [H|H].
      * apply starts_with_inv in H as [b ->]. now exists [], b.
      * destruct (IH H) as (a & b & ->). now exists (c :: a), b.
  - intros (a & b & ->). apply includes_app_l, includes_here, starts_with_app.
Qed.

Lemma includes_mid a t b : includes (a ++ t ++ b) t = true.
Proof. apply includes_spec. now exists a, b. Qed.

End IncludesFacts.

(* ===================================================================== *)
(** ** The handler around [fetchUrl] *)
(* ===================================================================== *)

Section Handler.

Context {W : World}.

Lemma string_eqb_refl (a : js_string) : string_eqb a a = true.
Proof. unfold string_eqb. now destruct (list_eq_dec N.eq_dec a a). Qed.

(** Arguments that passed the schema are in range. *)
Lemma safeParse_valid args data :
  FetchArgsSchema_safeParse args = Some data ->
  0 <= startIndex data /\ 0 < maxLength data <= 1000000
  /\ is_url (url data) = true.
Proof.
  unfold FetchArgsSchema_safeParse.
  destruct args as [a|]; [|discriminate].
  destruct (arg_url a) as [u|]; [|discriminate].
  match goal with |- context [if ?c then _ else _] => destruct c eqn:E end;
    [|discriminate].
  intros [= <-]. cbn.
  apply andb_prop in E as [E Hs]. apply andb_prop in E as [E Hmax].
  apply andb_prop in E as [Hu Hm].
  apply Z.leb_le in Hs, Hmax. apply Z.ltb_lt in Hm. auto.
Qed.

(** A fulfilled [fetchUrl] is answered with [success_text]. *)
Lemma call_tool_fetched params data r :
  name params = lit "fetch" ->
  FetchArgsSchema_safeParse (arguments params) = Some data ->
  fetchUrl (url data) DEFAULT_USER_AGENT_AUTONOMOUS (raw data) = Return r ->
  call_tool params
  = {| result_text := success_text data r; isError := false |}.
Proof.
  intros Hn Hp Hf. unfold call_tool, call_tool_try.
  rewrite Hn, string_eqb_refl, Hp. cbn [negb]. now rewrite Hf.
Qed.

(** A rejected [fetchUrl] is answered with the error. *)
Lemma call_tool_rejected params data e :
  name params = lit "fetch" ->
  FetchArgsSchema_safeParse (arguments params) = Some data ->
  fetchUrl (url data) DEFAULT_USER_AGENT_AUTONOMOUS (raw data) = Throw e ->
  call_tool params
  = {| result_text := lit "Error: " ++ error_text e; isError := true |}.
Proof.
  intros Hn Hp Hf. unfold call_tool, call_tool_try.
  rewrite Hn, string_eqb_refl, Hp. cbn [negb]. now rewrite Hf.
Qed.

End Handler.

(* ===================================================================== *)
(** ** Pagination *)
(* ===================================================================== *)

Ltac by_eval :=
  vm_compute; first [reflexivity | discriminate | intuition discriminate].

Section Pagination.

Implicit Types (content : js_string) (s M : Z).

(** [paginate] is the text of [page]. *)
Lemma paginate_render content s M :
  paginate content s M = render (page content s M).
Proof.
  unfold paginate, page, render.
  destruct (length content >? M); cbn; [reflexivity|].
  now rewrite app_nil_r.
Qed.

Lemma page_truncated content s M :
  M < length content ->
  page content s M
  = {| page_slice := slice content s (s + M); truncated := true;
       nextStartIndex := Some (s + M) |}.
Proof.
  intros H. unfold page.
  destruct (Z.gtb_spec (length content) M); [reflexivity|lia].
Qed.

Lemma page_whole content s M :
  length content <= M ->
  page content s M
  = {| page_slice := content; truncated := false; nextStartIndex := None |}.
Proof.
  intros H. unfold page.
  destruct (Z.gtb_spec (length content) M); [lia|reflexivity].
Qed.

Lemma truncation_notice_length next : 2 <= length (truncation_notice next).
Proof.
  unfold truncation_notice. rewrite !length_app_Z.
  pose proof (length_nonneg (lit "<e>Content truncated. Call the fetch tool with a start_index of ")).
  pose proof (length_nonneg (number_to_string next)).
  pose proof (length_nonneg (lit " to get more content.</e>")).
  change (length nl) with 1. lia.
Qed.

(** The notice names the index it was built from. *)
Lemma truncation_notice_names next :
  includes (truncation_notice next) (number_to_string next) = true.
Proof.
  unfold truncation_notice. rewrite !app_assoc. rewrite <- app_assoc.
  apply includes_mid.
Qed.

(** The start indices are the multiples of [M] below [L]. *)
Lemma page_starts_spec L M s :
  0 < M ->
  In s (page_starts L M) <-> exists k, 0 <= k /\ s = k * M /\ s < L.
Proof.
  intros HM. unfold page_starts. rewrite in_map_iff.
  pose proof (Z.div_mod (L + M - 1) M ltac:(lia)) as Hdm.
  pose proof (Z.mod_pos_bound (L + M - 1) M HM) as Hr.
  set (q := (L + M - 1) / M) in *. set (r := (L + M - 1) mod M) in *.
  split.
  - intros (k & <- & Hk). apply in_seq in Hk.
    exists (Z.of_nat k). repeat split; [lia|]. nia.
  - intros (k & Hk & -> & Hlt). exists (Z.to_nat k). split; [f_equal; lia|].
    apply in_seq. nia.
Qed.

(** Below the end of the content, the slice of the page that starts at a
    multiple of [M] is the chunk of width [M] there. *)
Lemma page_slice_chunk content M (k : nat) :
  0 < M -> Z.of_nat k * M < length content ->
  page_slice (page content (Z.of_nat k * M) M)
  = firstn (Z.to_nat M) (skipn (k * Z.to_nat M) content).
Proof.
  intros HM Hk. destruct (Z.le_gt_cases (length content) M) as [Hle|Hgt].
  - rewrite page_whole by assumption. cbn.
    assert (k = 0%nat) as -> by nia. cbn.
    symmetry. apply firstn_all2. unfold length in Hle. lia.
  - rewrite page_truncated by lia. cbn.
    rewrite slice_window by lia. do 2 f_equal. nia.
Qed.

End Pagination.

(* ===================================================================== *)
(** ** The text of the notice *)
(* ===================================================================== *)

(** The notice as the handler writes it.  The number is the double
    [startIndex + maxLength]; the theorems below take it up to
    [MAX_SAFE_INTEGER], where the sum of the handler is the sum of [Z] and
    prints as its decimal digits. *)
Lemma truncation_notice_text next :
  truncation_notice next
  = nl ++ nl
       ++ lit "<e>Content truncated. Call the fetch tool with a start_index of "
       ++ number_to_string next ++ lit " to get more content.</e>".
Proof. reflexivity. Qed.

(** A final content that fits in the text has nothing appended. *)
Lemma paginate_whole content s M :
  length content <= M -> paginate content s M = content.
Proof.
  intros H. rewrite paginate_render, page_whole by assumption.
  unfold render; cbn [page_slice nextStartIndex]. apply app_nil_r.
Qed.

Lemma paginate_truncated content s M :
  M < length content ->
  paginate content s M
  = slice content s (s + M) ++ truncation_notice (s + M).
Proof.
  intros H. now rewrite paginate_render, page_truncated.
Qed.

(* ===================================================================== *)
(** ** The window that reaches the end of the text (C1) *)
(* ===================================================================== *)

(** C1, as the specification states it, fails on the code.  The handler
    truncates when the whole content is longer than [maxLength], whatever
    the start: on ten characters, the window (5, 7) holds all that remains
    and still gets the notice; and on a content that fits [maxLength], the
    start index is not applied, so (1, 10) on ["abc"] answers ["abc"]. *)
Lemma paginate_last_window_counterexample :
  (let content := lit "abcdefghij" in
   length content - 5 <= 7
   /\ page content 5 7
      = {| page_slice := lit "fghij"; truncated := true;
           nextStartIndex := Some 12 |}
   /\ paginate content 5 7 = lit "fghij" ++ truncation_notice 12
   /\ paginate content 5 7 <> skipn 5 content)
  /\
  (let content := lit "abc" in
   length content - 1 <= 10
   /\ paginate content 1 10 = lit "abc"
   /\ paginate content 1 10 <> skipn 1 content).
Proof. repeat split; by_eval. Qed.

(** C1 (amended): for a window (s, M) with s >= 0, length - s <= M and
    s + M at most [MAX_SAFE_INTEGER]: when the content is longer than M,
    the final content is the full remaining text from s followed by the
    notice "<e>Content truncated. Call the fetch tool with a start_index of
    <s + M> to get more content.</e>" (truncated = true); when the content
    is not longer than M, nothing is appended to the text (truncated =
    false), and for s = 0 the final content is the full text. *)
Theorem paginate_last_window content s M :
  0 <= s -> length content - s <= M -> s + M <= MAX_SAFE_INTEGER ->
  (M < length content ->
   paginate content s M
   = skipn (Z.to_nat s) content
       ++ nl ++ nl
       ++ lit "<e>Content truncated. Call the fetch tool with a start_index of "
       ++ number_to_string (s + M) ++ lit " to get more content.</e>"
   /\ paginate content s M <> skipn (Z.to_nat s) content
   /\ page content s M
      = {| page_slice := skipn (Z.to_nat s) content; truncated := true;
           nextStartIndex := Some (s + M) |})
  /\
  (length content <= M ->
   (exists before after, content = before ++ paginate content s M ++ after)
   /\ length (paginate content s M) <= length content
   /\ truncated (page content s M) = false
   /\ nextStartIndex (page content s M) = None
   /\ (s = 0 -> paginate content s M = skipn (Z.to_nat s) content)).
Proof.
  intros Hs Hend Hsafe. split.
  - intros Hlong.
    assert (Hp : paginate content s M
                 = skipn (Z.to_nat s) content ++ truncation_notice (s + M))
      by now rewrite paginate_truncated, slice_to_end by lia.
    split; [exact Hp|]. split.
    + rewrite Hp. intros Heq. apply (f_equal length) in Heq.
      rewrite length_app_Z in Heq.
      pose proof (truncation_notice_length (s + M)). lia.
    + rewrite page_truncated by assumption. now rewrite slice_to_end by lia.
  - intros Hfit. rewrite paginate_whole, page_whole by assumption.
    cbn [truncated nextStartIndex]. repeat split.
    + exists [], []. now rewrite app_nil_r.
    + lia.
    + now intros ->.
Qed.

Lemma paginate_last_window_witness :
  paginate (lit "abcdefghij") 5 7
  = lit "fghij" ++ nl ++ nl
        ++ lit "<e>Content truncated. Call the fetch tool with a start_index of 12 to get more content.</e>"
  /\ paginate (lit "abc") 0 10 = lit "abc".
Proof.
  split.
  - refine (proj1 (proj1 (@paginate_last_window (lit "abcdefghij") 5 7
                                                _ _ _) _)); by_eval.
  - refine (proj2 (proj2 (proj2 (proj2
             (proj2 (@paginate_last_window (lit "abc") 0 10 _ _ _) _)))) _);
      by_eval.
Defined.

(* ===================================================================== *)
(** ** A start at or past the end of the text (C3) *)
(* ===================================================================== *)

(** C3, as the specification states it, fails on the code: with six
    characters and the window (6, 3) the slice is empty but the notice is
    appended (truncated = true); with three characters and the window
    (5, 10) the content fits [maxLength], so the slice is the whole
    content, not the empty string. *)
Lemma paginate_start_past_end_counterexample :
  (let content := lit "abcdef" in
   length content <= 6
   /\ page content 6 3
      = {| page_slice := []; truncated := true; nextStartIndex := Some 9 |}
   /\ paginate content 6 3 = truncation_notice 9)
  /\
  (let content := lit "abc" in
   length content <= 5
   /\ page content 5 10
      = {| page_slice := lit "abc"; truncated := false;
           nextStartIndex := None |}).
Proof. repeat split; by_eval. Qed.

(** C3 (amended): for a start index s at or past the length of the text,
    with s + M at most [MAX_SAFE_INTEGER], no error is raised.  When the
    text is longer than M the slice is empty and the final content is the
    notice alone, naming s + M (truncated = true): a fulfilled fetch is
    answered, without [isError], with the header, this notice and the image
    section.  When the text is not longer than M nothing is appended to the
    text (truncated = false) and the answer is without [isError]. *)
Theorem paginate_start_past_end (body : js_string) s M :
  length body <= s -> s + M <= MAX_SAFE_INTEGER ->
  (M < length body ->
   paginate body s M
   = nl ++ nl
        ++ lit "<e>Content truncated. Call the fetch tool with a start_index of "
        ++ number_to_string (s + M) ++ lit " to get more content.</e>"
   /\ page body s M
      = {| page_slice := []; truncated := true;
           nextStartIndex := Some (s + M) |})
  /\
  (length body <= M ->
   (exists before after, body = before ++ paginate body s M ++ after)
   /\ length (paginate body s M) <= length body
   /\ truncated (page body s M) = false
   /\ nextStartIndex (page body s M) = None)
  /\
  (forall (W : World) params data r,
      name params = lit "fetch" ->
      FetchArgsSchema_safeParse (arguments params) = Some data ->
      fetchUrl (url data) DEFAULT_USER_AGENT_AUTONOMOUS (raw data)
      = Return r ->
      body = content r -> s = startIndex data -> M = maxLength data ->
      isError (call_tool params) = false
      /\ (M < length body ->
          result_text (call_tool params)
          = prefix r ++ lit "Contents of " ++ url data ++ lit ":" ++ nl
                   ++ (nl ++ nl
                          ++ lit "<e>Content truncated. Call the fetch tool with a start_index of "
                          ++ number_to_string (s + M)
                          ++ lit " to get more content.</e>")
                   ++ imagesSection_of (imageUrls r))).
Proof.
  intros Hs Hsafe.
  assert (Hnotice : M < length body ->
                    paginate body s M = truncation_notice (s + M)).
  { intros Hlong. now rewrite paginate_truncated, slice_past_end. }
  split; [|split].
  - intros Hlong. split; [now apply Hnotice|].
    rewrite page_truncated by assumption. now rewrite slice_past_end.
  - intros Hfit. rewrite paginate_whole, page_whole by assumption.
    cbn [truncated nextStartIndex]. repeat split; [|lia].
    exists [], []. now rewrite app_nil_r.
  - intros W params data r Hname Hparse Hfetch Hbody Hstart Hmax.
    rewrite (call_tool_fetched params Hname Hparse Hfetch).
    split; [reflexivity|]. intros Hlong. cbn [result_text].
    unfold success_text. rewrite <- Hbody, <- Hstart, <- Hmax.
    now rewrite (Hnotice Hlong).
Qed.

Lemma paginate_start_past_end_witness :
  paginate (lit "abcdef") 6 3
  = nl ++ nl
       ++ lit "<e>Content truncated. Call the fetch tool with a start_index of 9 to get more content.</e>"
  /\ length (paginate (lit "abc") 5 10) <= 3
  /\ isError (@call_tool (plain_text_world (lit "http://a.b") (lit "abcdef"))
                         (fetch_call (lit "http://a.b") (Some 3) (Some 6)))
     = false.
Proof.
  split; [|split].
  - refine (proj1 (proj1 (@paginate_start_past_end (lit "abcdef") 6 3 _ _)
                         _)); by_eval.
  - refine (proj1 (proj2 (proj1 (proj2 (@paginate_start_past_end
                                          (lit "abc") 5 10 _ _)) _)));
      by_eval.
  - refine (proj1 (proj2 (proj2 (@paginate_start_past_end
                                   (lit "abcdef") 6 3 _ _))
                         (plain_text_world (lit "http://a.b") (lit "abcdef"))
                         (fetch_call (lit "http://a.b") (Some 3) (Some 6))
                         {| url := lit "http://a.b"; maxLength := 3;
                            startIndex := 6; raw := false |}
                         {| content := lit "abcdef";
                            prefix := raw_prefix (lit "text/plain");
                            imageUrls := None |}
                         _ _ _ _ _ _)); by_eval.
Defined.

(* ===================================================================== *)
(** ** The first window of a long text (C4) *)
(* ===================================================================== *)

(** C4: for a text longer than M (a JavaScript string, so of a length up
    to [MAX_SAFE_INTEGER]), the window (0, M) is truncated: the final
    content is the first M characters of the text, exactly M of them,
    followed by the notice "<e>Content truncated. Call the fetch tool with
    a start_index of <M> to get more content.</e>", so the next start index
    it names is 0 + M = M.  The same holds at every start s with s + M up
    to [MAX_SAFE_INTEGER]: the notice names s + M whether or not content
    remains past the window. *)
Theorem paginate_first_window content M :
  0 <= M -> M < length content -> length content <= MAX_SAFE_INTEGER ->
  paginate content 0 M
  = firstn (Z.to_nat M) content
      ++ nl ++ nl
      ++ lit "<e>Content truncated. Call the fetch tool with a start_index of "
      ++ number_to_string (0 + M) ++ lit " to get more content.</e>"
  /\ length (firstn (Z.to_nat M) content) = M
  /\ paginate content 0 M <> firstn (Z.to_nat M) content
  /\ includes (paginate content 0 M) (number_to_string M) = true
  /\ page content 0 M
     = {| page_slice := firstn (Z.to_nat M) content; truncated := true;
          nextStartIndex := Some M |}
  /\ (forall s,
         0 <= s -> s + M <= MAX_SAFE_INTEGER ->
         paginate content s M
         = slice content s (s + M)
             ++ nl ++ nl
             ++ lit "<e>Content truncated. Call the fetch tool with a start_index of "
             ++ number_to_string (s + M) ++ lit " to get more content.</e>"
         /\ page content s M
            = {| page_slice := slice content s (s + M); truncated := true;
                 nextStartIndex := Some (s + M) |}).
Proof.
  intros HM Hlong Hsafe.
  assert (Hslice : slice content 0 (0 + M) = firstn (Z.to_nat M) content)
    by now rewrite slice_window.
  assert (Hp : paginate content 0 M
               = firstn (Z.to_nat M) content ++ truncation_notice (0 + M))
    by now rewrite paginate_truncated, Hslice.
  assert (Hlen : length (firstn (Z.to_nat M) content) = M).
  { unfold length in *. rewrite length_firstn. lia. }
  refine (conj Hp (conj Hlen (conj _ (conj _ (conj _ _))))).
  - rewrite Hp. intros Heq. apply (f_equal length) in Heq.
    rewrite length_app_Z in Heq.
    pose proof (truncation_notice_length (0 + M)). lia.
  - rewrite Hp. apply includes_app_l. apply (truncation_notice_names M).
  - now rewrite page_truncated, Hslice.
  - intros s Hs Hs_safe. split.
    + now apply paginate_truncated.
    + now apply page_truncated.
Qed.

Lemma paginate_first_window_witness :
  paginate (lit "abcdefghij") 0 4
  = lit "abcd" ++ nl ++ nl
        ++ lit "<e>Content truncated. Call the fetch tool with a start_index of 4 to get more content.</e>".
Proof.
  refine (proj1 (@paginate_first_window (lit "abcdefghij") 4 _ _ _));
    by_eval.
Defined.

(* ===================================================================== *)
(** ** The pages put together (C5) *)
(* ===================================================================== *)

(** C5, as stated, fails on the code when the start L itself is among the
    pages and the text fits maxLength: on ["abcd"] with M = 4, the pages
    that start at 0 and at 4 are both the whole text, and their slices put
    together are ["abcdabcd"]. *)
Lemma pages_reconstruct_counterexample :
  let content := lit "abcd" in
  length content = 4
  /\ paginate content 0 4 = lit "abcd"
  /\ paginate content 4 4 = lit "abcd"
  /\ page_slice (page content 0 4) ++ page_slice (page content 4 4)
     = lit "abcdabcd"
  /\ page_slice (page content 0 4) ++ page_slice (page content 4 4)
     <> content.
Proof. repeat split; by_eval. Qed.

Lemma Forall2_map_r {A B} (P : A -> B -> Prop) (f : A -> B) (l : list A) :
  (forall x, In x l -> P x (f x)) -> Forall2 P l (List.map f l).
Proof.
  induction l as [|x l IH]; intros H; cbn; constructor.
  - apply H. now left.
  - apply IH. intros y Hy. apply H. now right.
Qed.

(** C5 (amended): for a positive M (with length + M at most
    [MAX_SAFE_INTEGER]), take the pages that start at 0, M, 2M, ...
    strictly below the length of the text.  The final content of each is a
    chunk of the text, followed by the notice naming its start + M when the
    text is longer than M, and the chunks, concatenated in this order, are
    the text.  When the text is longer than M, further pages add nothing:
    the slices of any number of pages that covers the text give the
    text. *)
Theorem pages_reconstruct content M :
  0 < M -> length content + M <= MAX_SAFE_INTEGER ->
  (exists chunks,
      Forall2
        (fun s chunk =>
           paginate content s M
           = chunk
               ++ (if length content >? M
                   then nl ++ nl
                           ++ lit "<e>Content truncated. Call the fetch tool with a start_index of "
                           ++ number_to_string (s + M)
                           ++ lit " to get more content.</e>"
                   else []))
        (page_starts (length content) M) chunks
      /\ chunks
         = List.map (fun s => page_slice (page content s M))
                    (page_starts (length content) M)
      /\ List.concat chunks = content)
  /\ (M < length content ->
      forall n : nat,
        length content <= Z.of_nat n * M ->
        List.concat (List.map (fun k => page_slice
                                          (page content (Z.of_nat k * M) M))
                              (seq 0 n))
        = content).
Proof.
  intros HM Hsafe. pose proof (length_nonneg content) as HL. split.
  - exists (List.map (fun s => page_slice (page content s M))
                     (page_starts (length content) M)).
    split; [|split; [reflexivity|]].
    + apply Forall2_map_r. intros s _.
      rewrite paginate_render. unfold page, render.
      destruct (length content >? M); cbn [page_slice nextStartIndex];
        reflexivity.
    + unfold page_starts. rewrite map_map.
      set (n := Z.to_nat ((length content + M - 1) / M)).
      pose proof (Z.div_mod (length content + M - 1) M ltac:(lia)) as Hdm.
      pose proof (Z.mod_pos_bound (length content + M - 1) M HM) as Hr.
      assert (Hq : 0 <= (length content + M - 1) / M)
        by (apply Z.div_pos; lia).
      rewrite (map_ext_in _
                 (fun k => firstn (Z.to_nat M)
                                  (skipn (k * Z.to_nat M) content))).
      * rewrite chunks_prefix. apply firstn_all2.
        unfold length in *. subst n. nia.
      * intros k Hk. apply in_seq in Hk.
        apply page_slice_chunk; [assumption|]. subst n. nia.
  - intros Hlong n Hcover.
    rewrite (map_ext _ (fun k => firstn (Z.to_nat M)
                                        (skipn (k * Z.to_nat M) content))).
    + rewrite chunks_prefix. apply firstn_all2. unfold length in *. nia.
    + intros k. rewrite page_truncated by assumption. cbn [page_slice].
      rewrite slice_window by lia. do 2 f_equal. nia.
Qed.

Lemma pages_reconstruct_witness :
  (exists chunks,
      chunks = [lit "abcd"; lit "efgh"; lit "ij"]
      /\ List.concat chunks = lit "abcdefghij")
  /\ lit "abcd" ++ lit "efgh" ++ lit "ij" ++ [] ++ [] = lit "abcdefghij".
Proof.
  split.
  - destruct (proj1 (@pages_reconstruct (lit "abcdefghij") 4
                                        ltac:(by_eval) ltac:(by_eval)))
      as (chunks & _ & Hchunks & Hconcat).
    exists chunks. split; [exact Hchunks | exact Hconcat].
  - exact (proj2 (@pages_reconstruct (lit "abcdefghij") 4
                                     ltac:(by_eval) ltac:(by_eval))
                 ltac:(by_eval) 4%nat ltac:(by_eval)).
Defined.

(* ===================================================================== *)
(** ** The notice inside the returned text (C10) *)
(* ===================================================================== *)

(** C10, as stated, fails on the code in its last part: the notice is
    appended, but the returned text need not be longer than maxLength.  On
    the last page of 1500 characters read with the window (1000, 1000), the
    slice has 500 characters, the final content (slice and notice) has 595,
    and the whole text of the answer has 706. *)
Lemma truncated_text_length_counterexample :
  let body := repeat 97%N 1500 in
  let W := plain_text_world (lit "http://a.b") body in
  let answer :=
    @call_tool W (fetch_call (lit "http://a.b") (Some 1000) (Some 1000)) in
  1000 < length body
  /\ paginate body 1000 1000 = repeat 97%N 500 ++ truncation_notice 2000
  /\ length (paginate body 1000 1000) = 595
  /\ isError answer = false
  /\ includes (result_text answer) (paginate body 1000 1000) = true
  /\ length (result_text answer) = 706
  /\ ~ 1000 < length (result_text answer).
Proof. repeat split; by_eval. Qed.

(** C10 (amended): whenever the content is longer than maxLength, for a
    start index s >= 0 with s + M at most [MAX_SAFE_INTEGER], the final
    content is the slice followed by the notice "<e>Content truncated. Call
    the fetch tool with a start_index of <s + M> to get more
    content.</e>", so it is not the bare slice and is longer than the slice
    by the length of the notice; it is the part of the answer's text
    between the header and the image section.  When the window lies inside
    the content (s + M <= length) the slice has M characters, and the
    returned text is strictly longer than maxLength. *)
Theorem truncation_appends_notice (body : js_string) s M :
  M < length body -> 0 <= s -> s + M <= MAX_SAFE_INTEGER ->
  paginate body s M
  = slice body s (s + M)
      ++ nl ++ nl
      ++ lit "<e>Content truncated. Call the fetch tool with a start_index of "
      ++ number_to_string (s + M) ++ lit " to get more content.</e>"
  /\ paginate body s M <> slice body s (s + M)
  /\ includes (paginate body s M) (number_to_string (s + M)) = true
  /\ length (paginate body s M)
     = length (slice body s (s + M)) + length (truncation_notice (s + M))
  /\ 2 <= length (truncation_notice (s + M))
  /\ (0 <= M -> s + M <= length body -> M < length (paginate body s M))
  /\ (forall (W : World) params data r,
         name params = lit "fetch" ->
         FetchArgsSchema_safeParse (arguments params) = Some data ->
         fetchUrl (url data) DEFAULT_USER_AGENT_AUTONOMOUS (raw data)
         = Return r ->
         body = content r -> s = startIndex data -> M = maxLength data ->
         call_tool params
         = {| result_text :=
                prefix r ++ lit "Contents of " ++ url data ++ lit ":" ++ nl
                       ++ (slice body s (s + M)
                                 ++ nl ++ nl
                                 ++ lit "<e>Content truncated. Call the fetch tool with a start_index of "
                                 ++ number_to_string (s + M)
                                 ++ lit " to get more content.</e>")
                       ++ imagesSection_of (imageUrls r);
              isError := false |}
         /\ (s + M <= length body ->
             M < length (result_text (call_tool params)))).
Proof.
  intros Hlong Hs0 Hsafe.
  assert (Hp : paginate body s M
               = slice body s (s + M) ++ truncation_notice (s + M))
    by now apply paginate_truncated.
  pose proof (truncation_notice_length (s + M)) as Hn.
  assert (Hlen : length (paginate body s M)
                 = length (slice body s (s + M))
                   + length (truncation_notice (s + M)))
    by now rewrite Hp, length_app_Z.
  assert (Hin : 0 <= M -> s + M <= length body ->
                M < length (paginate body s M)).
  { intros HM Hwin. rewrite Hlen, length_slice_inside by assumption. lia. }
  refine (conj Hp (conj _ (conj _ (conj Hlen (conj Hn (conj Hin _)))))).
  - intros Heq. apply (f_equal length) in Heq. rewrite Hlen in Heq. lia.
  - rewrite Hp. apply includes_app_l, truncation_notice_names.
  - intros W params data r Hname Hparse Hfetch Hbody Hstart Hmax.
    rewrite (call_tool_fetched params Hname Hparse Hfetch).
    unfold success_text. rewrite <- Hbody, <- Hstart, <- Hmax, Hp.
    split; [reflexivity|].
    intros Hwin. destruct (safeParse_valid _ Hparse) as (_ & HM & _).
    rewrite <- Hmax in HM.
    cbn [result_text]. rewrite !length_app_Z.
    rewrite length_slice_inside by lia.
    pose proof (length_nonneg (prefix r)).
    pose proof (length_nonneg (lit "Contents of ")).
    pose proof (length_nonneg (url data)).
    pose proof (length_nonneg (lit ":")).
    pose proof (length_nonneg nl).
    pose proof (length_nonneg (imagesSection_of (imageUrls r))).
    lia.
Qed.

Lemma truncation_appends_notice_witness :
  paginate (lit "abcdefghij") 2 4
  = lit "cdef" ++ nl ++ nl
        ++ lit "<e>Content truncated. Call the fetch tool with a start_index of 6 to get more content.</e>"
  /\ 4 < length (paginate (lit "abcdefghij") 2 4)
  /\ @call_tool (plain_text_world (lit "http://a.b") (lit "abcdefghij"))
                (fetch_call (lit "http://a.b") (Some 4) (Some 2))
     = {| result_text :=
            raw_prefix (lit "text/plain") ++ lit "Contents of http://a.b:"
                       ++ nl ++ lit "cdef" ++ truncation_notice 6;
          isError := false |}.
Proof.
  pose (T := @truncation_appends_notice (lit "abcdefghij") 2 4
                                        ltac:(by_eval) ltac:(by_eval)
                                        ltac:(by_eval)).
  split; [|split].
  - exact (proj1 T).
  - refine (proj1 (proj2 (proj2 (proj2 (proj2 (proj2 T))))) _ _); by_eval.
  - refine (eq_trans
              (proj1 (proj2 (proj2 (proj2 (proj2 (proj2 (proj2 T)))))
                            (plain_text_world (lit "http://a.b")
                                              (lit "abcdefghij"))
                            (fetch_call (lit "http://a.b") (Some 4) (Some 2))
                            {| url := lit "http://a.b"; maxLength := 4;
                               startIndex := 2; raw := false |}
                            {| content := lit "abcdefghij";
                               prefix := raw_prefix (lit "text/plain");
                               imageUrls := None |}
                            ltac:(by_eval) ltac:(by_eval) ltac:(by_eval)
                            ltac:(by_eval) ltac:(by_eval) ltac:(by_eval)))
              _).
    by_eval.
Defined.

(* ===================================================================== *)
(** ** [fetchUrl]: a response without success (C9) *)
(* ===================================================================== *)

Lemma or_empty_id (x : js_string) : or_empty x = x.
Proof. now destruct x. Qed.

Lemma fetch_failure_names_url u code :
  includes (fetch_failure u code) u = true.
Proof. unfold fetch_failure. apply includes_mid. Qed.

Lemma fetch_failure_names_status u code :
  includes (fetch_failure u code) (number_to_string code) = true.
Proof.
  apply includes_spec.
  exists (lit "Failed to fetch " ++ u ++ lit " - status code "), [].
  unfold fetch_failure. now rewrite app_nil_r, <- !app_assoc.
Qed.

(** C9: when the retrieval of a URL completes with a status outside
    200-299, [fetchUrl] rejects with an [Error] instead of returning
    content; the message is
    "Failed to fetch <url> - status code <status>", which contains the URL
    and the decimal status code; the handler answers with this message and
    [isError]. *)
Theorem fetch_failure_reported (W : World) u userAgent forceRaw resp :
  fetch u userAgent = Return resp ->
  ok resp = false ->
  fetchUrl u userAgent forceRaw
  = Throw (ErrorObject (fetch_failure u (status resp)))
  /\ fetch_failure u (status resp)
     = lit "Failed to fetch " ++ u ++ lit " - status code "
           ++ number_to_string (status resp)
  /\ includes (fetch_failure u (status resp)) u = true
  /\ includes (fetch_failure u (status resp))
              (number_to_string (status resp)) = true
  /\ (forall params data,
         name params = lit "fetch" ->
         FetchArgsSchema_safeParse (arguments params) = Some data ->
         url data = u -> raw data = forceRaw ->
         userAgent = DEFAULT_USER_AGENT_AUTONOMOUS ->
         call_tool params
         = {| result_text :=
                lit "Error: " ++ fetch_failure u (status resp);
              isError := true |}).
Proof.
  intros Hfetch Hok.
  assert (Hthrow : fetchUrl u userAgent forceRaw
                   = Throw (ErrorObject (fetch_failure u (status resp)))).
  { unfold fetchUrl. rewrite Hfetch. cbn [bind]. now rewrite Hok. }
  refine (conj Hthrow (conj eq_refl (conj _ (conj _ _)))).
  - apply fetch_failure_names_url.
  - apply fetch_failure_names_status.
  - intros params data Hname Hparse <- <- ->.
    now rewrite (call_tool_rejected params Hname Hparse Hthrow).
Qed.

Lemma fetch_failure_reported_witness :
  let u := lit "http://a.b/missing" in
  let resp := node_fetch_response u 404 (Some (lit "text/html")) [] in
  @call_tool (scripted (idle (Return resp))) (fetch_call u None None)
  = {| result_text :=
         lit "Error: Failed to fetch http://a.b/missing - status code 404";
       isError := true |}.
Proof.
  intros u resp.
  exact (proj2 (proj2 (proj2 (proj2
           (@fetch_failure_reported
              (scripted (idle (Return resp))) u
              DEFAULT_USER_AGENT_AUTONOMOUS false resp
              ltac:(by_eval) ltac:(by_eval)))))
           (fetch_call u None None)
           {| url := u; maxLength := 20000; startIndex := 0; raw := false |}
           ltac:(by_eval) ltac:(by_eval) ltac:(by_eval) ltac:(by_eval)
           ltac:(by_eval)).
Defined.

(* ===================================================================== *)
(** ** [fetchUrl]: the images of an HTML page (C6, C7, C8) *)
(* ===================================================================== *)

(** Whatever the libraries answer, a result of [fetchUrl] lists at most
    ten images. *)
Lemma fetchUrl_image_cap (W : World) u userAgent forceRaw r :
  fetchUrl u userAgent forceRaw = Return r ->
  length (image_list r) <= 10.
Proof.
  unfold fetchUrl, image_list.
  destruct (fetch u userAgent) as [resp|]; cbn [bind]; [|discriminate].
  destruct (negb (ok resp)); [discriminate|].
  destruct (text resp) as [body|]; cbn [bind]; [|discriminate].
  destruct (isHtml_of body (contentType_of resp) && negb forceRaw).
  - destruct (extractContentFromHtml body u) as [[extracted|message]|];
      cbn [bind]; intros [= <-]; cbn; [|by_eval].
    rewrite slice_first by lia. unfold length. rewrite length_firstn. lia.
  - destruct (isPdf_of (contentType_of resp) && negb forceRaw).
    + destruct (arrayBuffer resp) as [bytes|]; cbn [bind]; [|discriminate].
      destruct (pdfparse bytes); cbn [bind]; intros [= <-]; by_eval.
    + intros [= <-]. by_eval.
Qed.

Section HtmlPath.

Context {W : World}.

(** The page at [u] is retrieved with success, is taken for HTML, and
    Readability finds in it the article [article], whose [img] elements are
    [imgs], in document order, and which turndown converts to [md]. *)
Variables (u userAgent body article md : js_string).
Variable resp : Response.
Variable imgs : list HTMLImageElement.

Hypothesis fetched : fetch u userAgent = Return resp.
Hypothesis status_ok : ok resp = true.
Hypothesis body_read : text resp = Return body.
Hypothesis is_html : isHtml_of body (contentType_of resp) = true.
Hypothesis article_found :
  Readability_parse body u
  = Return (Some {| article_content := Some article |}).
Hypothesis article_nonempty : truthy article = true.
Hypothesis imgs_found : querySelectorAll_img article = Return imgs.
Hypothesis converted : turndown article = Return md.

Lemma extract_article :
  extractContentFromHtml body u
  = Return (inl {| markdown := md; images := List.map image_of imgs |}).
Proof.
  unfold extractContentFromHtml.
  rewrite article_found. cbn. rewrite article_nonempty. cbn.
  rewrite imgs_found. cbn. now rewrite converted.
Qed.

Lemma fetchUrl_article :
  fetchUrl u userAgent false
  = Return {| content := md; prefix := [];
              imageUrls := Some (firstn 10 (List.map img_src imgs)) |}.
Proof.
  unfold fetchUrl. rewrite fetched. cbn [bind]. rewrite status_ok. cbn [negb].
  rewrite body_read. cbn [bind]. rewrite is_html. cbn [negb andb].
  rewrite extract_article. cbn. rewrite slice_first by lia.
  now rewrite map_map.
Qed.

(** C6 (amended): the harvested sequence keeps the document order and
    every occurrence, duplicates included: the images of
    [extractContentFromHtml] are, position by position, the [img] elements
    of the article, and the result of [fetchUrl] lists the [src] of the
    first ten of them in the same order. *)
Theorem harvest_keeps_order_and_duplicates :
  exists extracted,
    extractContentFromHtml body u = Return (inl extracted)
    /\ List.length (images extracted) = List.length imgs
    /\ (forall i, nth_error (List.map src (images extracted)) i
                  = option_map img_src (nth_error imgs i))
    /\ fetchUrl u userAgent false
       = Return {| content := markdown extracted; prefix := [];
                   imageUrls :=
                     Some (firstn 10 (List.map src (images extracted))) |}.
Proof.
  exists {| markdown := md; images := List.map image_of imgs |}.
  split; [apply extract_article|]. cbn. rewrite length_map, map_map.
  split; [reflexivity|]. split.
  - intros i. now rewrite nth_error_map.
  - apply fetchUrl_article.
Qed.

(** C7 (amended): each image harvested by [extractContentFromHtml]
    carries the resolved [src] and the alt text of its element, the empty
    string when the attribute is absent; the final result of [fetchUrl]
    keeps the [src] strings only (the first ten), and the handler lists
    them as lines "- <src>" after the content. *)
Theorem harvest_carries_src_and_alt :
  (exists extracted,
      extractContentFromHtml body u = Return (inl extracted)
      /\ forall i img,
          nth_error imgs i = Some img ->
          nth_error (images extracted) i
          = Some {| src := img_src img;
                    alt := match img_alt_attribute img with
                           | Some a => a
                           | None => []
                           end |})
  /\ (exists r,
         fetchUrl u userAgent false = Return r
         /\ imageUrls r = Some (firstn 10 (List.map img_src imgs))
         /\ (imgs <> [] ->
             imagesSection_of (imageUrls r)
             = nl ++ nl ++ lit "Images found in page:" ++ nl
                  ++ join nl (List.map (fun s => lit "- " ++ s)
                                       (firstn 10 (List.map img_src imgs))))).
Proof.
  split.
  - exists {| markdown := md; images := List.map image_of imgs |}.
    split; [apply extract_article|]. intros i img Hi. cbn.
    rewrite nth_error_map, Hi. cbn. unfold image_of.
    now rewrite or_empty_id.
  - eexists. split; [apply fetchUrl_article|]. cbn [imageUrls].
    split; [reflexivity|]. intros Hne. unfold imagesSection_of.
    destruct imgs as [|img rest]; [congruence|]. reflexivity.
Qed.

End HtmlPath.

(** C8: whatever the number of [img] elements of the extracted content,
    the image list of a result has at most ten entries; on the HTML path
    [fetchUrl] fulfils, and the list is the [src] of the first ten elements
    in document order, the rest being dropped. *)
Theorem imageUrls_capped (W : World) u userAgent forceRaw :
  (forall r,
      fetchUrl u userAgent forceRaw = Return r ->
      length (image_list r) <= 10)
  /\ (forall resp body article md imgs,
         fetch u userAgent = Return resp ->
         ok resp = true ->
         text resp = Return body ->
         isHtml_of body (contentType_of resp) = true ->
         forceRaw = false ->
         Readability_parse body u
         = Return (Some {| article_content := Some article |}) ->
         truthy article = true ->
         querySelectorAll_img article = Return imgs ->
         turndown article = Return md ->
         exists r,
           fetchUrl u userAgent forceRaw = Return r
           /\ image_list r = firstn 10 (List.map img_src imgs)
           /\ length (image_list r) = Z.min 10 (length imgs)).
Proof.
  split.
  - intros r. apply fetchUrl_image_cap.
  - intros resp body article md imgs Hf Hok Hb Hh -> Ha Ht Hq Hc.
    eexists. split; [eapply fetchUrl_article; eassumption|].
    unfold image_list. cbn [imageUrls]. split; [reflexivity|].
    unfold length. rewrite length_firstn, length_map. lia.
Qed.

(** C6, as stated, fails on the code: nothing removes a repeated source.
    An article that shows the same image twice yields its URL twice. *)
Lemma harvest_not_deduplicated_counterexample :
  let W := scenario_world [scenario_img (Some (lit "A"));
                           scenario_img (Some (lit "A"))]
                          (scenario_markdown (lit "A")) in
  @extractContentFromHtml W scenario_html scenario_url
  = Return (inl {| markdown := scenario_markdown (lit "A");
                   images :=
                     [ {| src := lit "http://example.com/a.png";
                          alt := lit "A" |};
                       {| src := lit "http://example.com/a.png";
                          alt := lit "A" |} ] |})
  /\ exists r,
      @fetchUrl W scenario_url DEFAULT_USER_AGENT_AUTONOMOUS false = Return r
      /\ image_list r = [ lit "http://example.com/a.png";
                          lit "http://example.com/a.png" ]
      /\ ~ NoDup (image_list r).
Proof.
  intros W. split; [by_eval|].
  eexists. split; [vm_compute; reflexivity|].
  split; [reflexivity|].
  cbn. intros Hnd. apply NoDup_cons_iff in Hnd as [Hnotin _].
  apply Hnotin. now left.
Qed.

Lemma harvest_keeps_order_and_duplicates_witness :
  exists extracted,
    @extractContentFromHtml
      (scenario_world [scenario_img (Some (lit "A")); scenario_img None]
                      (scenario_markdown (lit "A")))
      scenario_html scenario_url = Return (inl extracted)
    /\ List.length (images extracted) = 2%nat.
Proof.
  destruct (@harvest_keeps_order_and_duplicates
              (scenario_world [scenario_img (Some (lit "A"));
                               scenario_img None]
                              (scenario_markdown (lit "A")))
              scenario_url DEFAULT_USER_AGENT_AUTONOMOUS scenario_html
              scenario_article (scenario_markdown (lit "A"))
              (node_fetch_response scenario_url 200 (Some (lit "text/html"))
                                   scenario_html)
              [scenario_img (Some (lit "A")); scenario_img None]
              ltac:(by_eval) ltac:(by_eval) ltac:(by_eval) ltac:(by_eval)
              ltac:(by_eval) ltac:(by_eval) ltac:(by_eval) ltac:(by_eval))
    as (extracted & Hex & Hlen & _).
  exists extracted. split; [exact Hex | exact Hlen].
Defined.

(** C7, as stated, fails on the code: the final result has no alt text.
    For the scenario's article, [extractContentFromHtml] pairs the source
    with the alt text "A", but the result of [fetchUrl] lists the source
    string alone, and the same page with another alt text has the same
    image list and the same image section in the answer. *)
Lemma result_without_alt_counterexample :
  let WA := scenario_world [scenario_img (Some (lit "A"))]
                           (scenario_markdown (lit "A")) in
  let WB := scenario_world [scenario_img (Some (lit "B"))]
                           (scenario_markdown (lit "B")) in
  @extractContentFromHtml WA scenario_html scenario_url
  = Return (inl {| markdown := scenario_markdown (lit "A");
                   images := [ {| src := lit "http://example.com/a.png";
                                  alt := lit "A" |} ] |})
  /\ @fetchUrl WA scenario_url DEFAULT_USER_AGENT_AUTONOMOUS false
     = Return {| content := scenario_markdown (lit "A"); prefix := [];
                 imageUrls := Some [lit "http://example.com/a.png"] |}
  /\ @fetchUrl WB scenario_url DEFAULT_USER_AGENT_AUTONOMOUS false
     = Return {| content := scenario_markdown (lit "B"); prefix := [];
                 imageUrls := Some [lit "http://example.com/a.png"] |}
  /\ result_text (@call_tool WA (fetch_call scenario_url None None))
     = lit "Contents of http://example.com/:" ++ nl
           ++ scenario_markdown (lit "A") ++ nl ++ nl
           ++ lit "Images found in page:" ++ nl
           ++ lit "- http://example.com/a.png".
Proof. repeat split; by_eval. Qed.

Lemma harvest_carries_src_and_alt_witness :
  exists r,
    @fetchUrl (scenario_world [scenario_img (Some (lit "A"));
                               scenario_img None]
                              (scenario_markdown (lit "A")))
              scenario_url DEFAULT_USER_AGENT_AUTONOMOUS false = Return r
    /\ imageUrls r = Some [ lit "http://example.com/a.png";
                            lit "http://example.com/a.png" ].
Proof.
  destruct (@harvest_carries_src_and_alt
              (scenario_world [scenario_img (Some (lit "A"));
                               scenario_img None]
                              (scenario_markdown (lit "A")))
              scenario_url DEFAULT_USER_AGENT_AUTONOMOUS scenario_html
              scenario_article (scenario_markdown (lit "A"))
              (node_fetch_response scenario_url 200 (Some (lit "text/html"))
                                   scenario_html)
              [scenario_img (Some (lit "A")); scenario_img None]
              ltac:(by_eval) ltac:(by_eval) ltac:(by_eval) ltac:(by_eval)
              ltac:(by_eval) ltac:(by_eval) ltac:(by_eval) ltac:(by_eval))
    as (_ & r & Hr & Hurls & _).
  exists r. split; [exact Hr | exact Hurls].
Defined.

Lemma imageUrls_capped_witness :
  exists r,
    @fetchUrl (scenario_world (numbered_imgs 12) (scenario_markdown []))
              scenario_url DEFAULT_USER_AGENT_AUTONOMOUS false = Return r
    /\ length (image_list r) = 10
    /\ length (image_list r) <= 10.
Proof.
  destruct (@imageUrls_capped
              (scenario_world (numbered_imgs 12) (scenario_markdown []))
              scenario_url DEFAULT_USER_AGENT_AUTONOMOUS false)
    as (Hcap & Hpath).
  destruct (Hpath (node_fetch_response scenario_url 200
                                       (Some (lit "text/html"))
                                       scenario_html)
                  scenario_html scenario_article (scenario_markdown [])
                  (numbered_imgs 12)
                  ltac:(by_eval) ltac:(by_eval) ltac:(by_eval)
                  ltac:(by_eval) ltac:(by_eval) ltac:(by_eval)
                  ltac:(by_eval) ltac:(by_eval) ltac:(by_eval))
    as (r & Hr & _ & Hlen).
  exists r. split; [exact Hr|]. split; [exact Hlen | exact (Hcap r Hr)].
Defined.

(* ===================================================================== *)
(** ** [fetchUrl]: a PDF document (C2) *)
(* ===================================================================== *)

(** The text of a parsed PDF is empty exactly when the parser fulfilled
    with nothing, or with a result that has no text or an empty text: this
    is all that [?.text || ""] turns into an empty text. *)
Lemma pdf_text_or_empty_nil parsed :
  pdf_text_or_empty parsed = []
  <-> (parsed = None
       \/ exists d, parsed = Some d
                    /\ (pdf_text d = None \/ pdf_text d = Some [])).
Proof.
  unfold pdf_text_or_empty. rewrite or_empty_id.
  destruct parsed as [[[t|]]|]; cbn.
  - split.
    + intros ->. right. eexists. split; [reflexivity|]. now right.
    + intros [H|(d & [= <-] & [H|H])]; cbn in H; congruence.
  - split; [|reflexivity]. intros _. right. eexists.
    split; [reflexivity|]. now left.
  - split; [|reflexivity]. intros _. now left.
Qed.

Section PdfPath.

Context {W : World}.

(** The document at [u] is retrieved with success and is taken for a PDF:
    it is not taken for HTML, and its content type names
    [application/pdf]. *)
Variables (u userAgent body : js_string).
Variable resp : Response.

Hypothesis fetched : fetch u userAgent = Return resp.
Hypothesis status_ok : ok resp = true.
Hypothesis body_read : text resp = Return body.
Hypothesis not_html : isHtml_of body (contentType_of resp) = false.
Hypothesis is_pdf : isPdf_of (contentType_of resp) = true.

Lemma fetchUrl_pdf :
  fetchUrl u userAgent false
  = (bytes <- arrayBuffer resp ;;
     parsed <- pdfparse bytes ;;
     Return {| content := pdf_text_or_empty parsed; prefix := [];
               imageUrls := Some [] |}).
Proof.
  unfold fetchUrl. rewrite fetched. cbn [bind]. rewrite status_ok. cbn [negb].
  rewrite body_read. cbn [bind]. rewrite not_html, is_pdf. reflexivity.
Qed.

End PdfPath.

(** With node-fetch a body is read once: the [arrayBuffer()] of the PDF
    branch comes after [text()] and rejects, so for such a response the
    branch ends with this error before the parser is called. *)
Lemma pdf_body_read_once (W : World) u userAgent code contentType body :
  fetch u userAgent
  = Return (node_fetch_response u code contentType body) ->
  ok (node_fetch_response u code contentType body) = true ->
  isHtml_of body (contentType_of
                    (node_fetch_response u code contentType body)) = false ->
  isPdf_of (contentType_of
              (node_fetch_response u code contentType body)) = true ->
  fetchUrl u userAgent false
  = Throw (ErrorObject (lit "body used already for: " ++ u)).
Proof.
  intros Hf Hok Hh Hp.
  now rewrite (@fetchUrl_pdf W u userAgent body _ Hf Hok eq_refl Hh Hp).
Qed.

(** C2 (the code departs from it): a document taken for a PDF never gets
    a result with an empty text.  [fetchUrl] has read the body with
    [text()] when it asks for [arrayBuffer()], which node-fetch rejects:
    whatever the PDF parser would answer, [fetchUrl] rejects with "body
    used already for: <url>", and the handler answers with the text
    "Error: body used already for: <url>" and [isError]. *)
Theorem pdf_document_answered_with_error
        (W : World) u code contentType body params data :
  fetch u DEFAULT_USER_AGENT_AUTONOMOUS
  = Return (node_fetch_response u code contentType body) ->
  ok (node_fetch_response u code contentType body) = true ->
  isHtml_of body (contentType_of
                    (node_fetch_response u code contentType body)) = false ->
  isPdf_of (contentType_of
              (node_fetch_response u code contentType body)) = true ->
  name params = lit "fetch" ->
  FetchArgsSchema_safeParse (arguments params) = Some data ->
  url data = u -> raw data = false ->
  fetchUrl u DEFAULT_USER_AGENT_AUTONOMOUS false
  = Throw (ErrorObject (lit "body used already for: " ++ u))
  /\ call_tool params
     = {| result_text := lit "Error: " ++ lit "body used already for: " ++ u;
          isError := true |}
  /\ result_text (call_tool params) <> [].
Proof.
  intros Hf Hok Hh Hp Hname Hparse Hurl Hraw.
  pose proof (@pdf_body_read_once W u _ code contentType body Hf Hok Hh Hp)
    as Hthrow.
  assert (Hcall : call_tool params
                  = {| result_text :=
                         lit "Error: " ++ lit "body used already for: " ++ u;
                       isError := true |}).
  { assert (Hthrow' : fetchUrl (url data) DEFAULT_USER_AGENT_AUTONOMOUS
                               (raw data)
                      = Throw (ErrorObject
                                 (lit "body used already for: " ++ u)))
      by (rewrite Hurl, Hraw; exact Hthrow).
    now rewrite (call_tool_rejected params Hname Hparse Hthrow'). }
  split; [exact Hthrow|]. split; [exact Hcall|].
  rewrite Hcall. discriminate.
Qed.

Lemma pdf_document_answered_with_error_witness :
  let u := lit "http://a.b/paper.pdf" in
  let parsed := Return (Some {| pdf_text := Some (lit "Hello") |}) in
  @call_tool (pdf_world u (lit "%PDF-1.7 ...") parsed) (fetch_call u None None)
  = {| result_text :=
         lit "Error: body used already for: http://a.b/paper.pdf";
       isError := true |}.
Proof.
  intros u parsed.
  exact (proj1 (proj2 (@pdf_document_answered_with_error
                         (pdf_world u (lit "%PDF-1.7 ...") parsed)
                         u 200 (Some (lit "application/pdf"))
                         (lit "%PDF-1.7 ...")
                         (fetch_call u None None)
                         {| url := u; maxLength := 20000; startIndex := 0;
                            raw := false |}
                         ltac:(by_eval) ltac:(by_eval) ltac:(by_eval)
                         ltac:(by_eval) ltac:(by_eval) ltac:(by_eval)
                         ltac:(by_eval) ltac:(by_eval)))).
Defined.

(* ===================================================================== *)
(** ** More on pagination *)
(* ===================================================================== *)

Section PaginationBounds.

Implicit Types (content : js_string) (s M : Z).

(** Whatever its two indices, a slice is a contiguous part of the list. *)
Lemma slice_infix {A} (l : list A) s e :
  exists before after, l = before ++ slice l s e ++ after.
Proof.
  unfold slice.
  destruct (relative_index (length l) s <? relative_index (length l) e).
  - set (from := Z.to_nat (relative_index (length l) s)).
    set (width := Z.to_nat (relative_index (length l) e
                            - relative_index (length l) s)).
    exists (firstn from l), (skipn width (skipn from l)).
    now rewrite firstn_skipn, firstn_skipn.
  - exists [], l. reflexivity.
Qed.


(** X1: for a window with startIndex >= 0 and maxLength >= 0, the part of
    the content that a page keeps has at most maxLength characters, and the
    final content has at most maxLength characters more than the notice. *)
Theorem page_slice_bounded content s M :
  0 <= s -> 0 <= M ->
  length (page_slice (page content s M)) <= M
  /\ length (paginate content s M) <= M + length (truncation_notice (s + M)).
Proof.
  intros Hs HM.
  pose proof (truncation_notice_length (s + M)) as Hn.
  destruct (Z.le_gt_cases (length content) M) as [Hfit|Hlong].
  - rewrite paginate_render, page_whole by assumption.
    unfold render; cbn [page_slice nextStartIndex]. rewrite app_nil_r. lia.
  - rewrite paginate_render, page_truncated by lia.
    unfold render; cbn [page_slice nextStartIndex]. rewrite length_app_Z.
    pose proof (length_slice_le content Hs HM). lia.
Qed.

Lemma page_slice_bounded_witness :
  length (page_slice (page (lit "abcdefghij") 8 4)) <= 4.
Proof.
  refine (proj1 (@page_slice_bounded (lit "abcdefghij") 8 4 _ _)); by_eval.
Defined.

(** X2: whatever the window, also with indices that are negative or past
    the end, the part of the content that a page keeps is a contiguous part
    of the content: the pagination step adds no character to it other than
    the notice. *)
Theorem page_slice_infix content s M :
  exists before after,
    content = before ++ page_slice (page content s M) ++ after.
Proof.
  unfold page. destruct (length content >? M); cbn [page_slice].
  - apply slice_infix.
  - exists [], []. now rewrite app_nil_r.
Qed.



Lemma lit_inj a b : lit a = lit b -> a = b.
Proof.
  unfold lit. intros H.
  rewrite <- (string_of_list_ascii_of_string a),
          <- (string_of_list_ascii_of_string b).
  f_equal. revert H.
  generalize (list_ascii_of_string a) (list_ascii_of_string b).
  induction l as [|x l IH]; intros [|y l']; cbn; try discriminate; auto.
  intros [= Hxy Hl]. f_equal; [|now apply IH].
  now rewrite <- (ascii_N_embedding x), <- (ascii_N_embedding y), Hxy.
Qed.

Lemma number_to_string_inj a b :
  number_to_string a = number_to_string b -> a = b.
Proof.
  unfold number_to_string. intros H. apply lit_inj in H.
  assert (Hnil : forall z, Z.to_int z <> Decimal.Pos Decimal.Nil
                           /\ Z.to_int z <> Decimal.Neg Decimal.Nil).
  { intros z. split; intros Hz;
      pose proof (f_equal Z.of_int Hz) as Hz0;
      rewrite DecimalZ.of_to in Hz0; cbn in Hz0; subst z; discriminate Hz. }
  apply DecimalZ.to_int_inj.
  apply (f_equal NilZero.int_of_string) in H.
  rewrite !NilZero.isi in H by apply Hnil. congruence.
Qed.

(** X4: the notice tells the next start index apart: two notices are the
    same text only if they name the same index. *)
Theorem truncation_notice_inj a b :
  truncation_notice a = truncation_notice b -> a = b.
Proof.
  unfold truncation_notice. intros H.
  do 3 apply app_inv_head in H.
  apply app_inv_tail in H. now apply number_to_string_inj.
Qed.

Lemma truncation_notice_inj_witness : 2000 = 1000 + 1000.
Proof.
  apply (@truncation_notice_inj 2000 (1000 + 1000)). reflexivity.
Defined.

End PaginationBounds.

(* ===================================================================== *)
(** ** More on [extractContentFromHtml] and [fetchUrl] *)
(* ===================================================================== *)

Section FetchUrlFacts.

Context {W : World}.

Lemma truthy_false (x : js_string) : truthy x = false <-> x = [].
Proof. destruct x; cbn; split; congruence. Qed.


(** X5: once Readability has answered, [extractContentFromHtml] gives the
    failure text "<e>Page failed to be simplified from HTML</e>" exactly
    when there is no article, or the article has no content or an empty
    content; it gives no other text in place of the extracted content. *)
Theorem extract_failure_iff html u a :
  Readability_parse html u = Return a ->
  (extractContentFromHtml html u = Return (inr simplify_failure)
   <-> (a = None
        \/ exists article,
            a = Some article
            /\ (article_content article = None
                \/ article_content article = Some [])))
  /\ (forall message,
         extractContentFromHtml html u = Return (inr message) ->
         message = simplify_failure).
Proof.
  intros Hparse. unfold extractContentFromHtml. rewrite Hparse. cbn [bind].
  destruct a as [[[c|]]|]; cbn [article_content].
  - destruct (truthy c) eqn:Hc; cbn [negb].
    + split.
      * split.
        -- destruct (querySelectorAll_img c); cbn [bind]; [|discriminate].
           destruct (turndown c); cbn [bind]; discriminate.
        -- intros [H|(article & [= <-] & [H|H])]; cbn in H;
             try discriminate.
           injection H as ->. discriminate.
      * intros message.
        destruct (querySelectorAll_img c); cbn [bind]; [|discriminate].
        destruct (turndown c); cbn [bind]; discriminate.
    + apply truthy_false in Hc as ->. split.
      * split; [|reflexivity]. intros _. right. eexists.
        split; [reflexivity|]. now right.
      * now intros message [= <-].
  - split.
    + split; [|reflexivity]. intros _. right. eexists.
      split; [reflexivity|]. now left.
    + now intros message [= <-].
  - split.
    + split; [|reflexivity]. intros _. now left.
    + now intros message [= <-].
Qed.

(** X6: with [raw] set, or for a document that is taken neither for HTML
    nor for a PDF, [fetchUrl] returns the body as it is, with the prefix
    that names the content type and without an image list; Readability,
    turndown and the PDF parser have no part in the result. *)
Theorem fetchUrl_raw_passthrough u userAgent forceRaw resp body :
  fetch u userAgent = Return resp ->
  ok resp = true ->
  text resp = Return body ->
  forceRaw = true
  \/ (isHtml_of body (contentType_of resp) = false
      /\ isPdf_of (contentType_of resp) = false) ->
  fetchUrl u userAgent forceRaw
  = Return {| content := body;
              prefix := lit "Content type " ++ contentType_of resp
                            ++ lit " cannot be simplified to markdown, but here is the raw content:"
                            ++ nl;
              imageUrls := None |}.
Proof.
  intros Hf Hok Hb Hraw. unfold fetchUrl.
  rewrite Hf. cbn [bind]. rewrite Hok. cbn [negb]. rewrite Hb. cbn [bind].
  destruct Hraw as [->|[-> ->]].
  - now rewrite !andb_false_r.
  - reflexivity.
Qed.


End FetchUrlFacts.

Lemma extract_failure_iff_witness :
  @extractContentFromHtml
    (scripted (idle (Return (node_fetch_response scenario_url 200 None []))))
    scenario_html scenario_url
  = Return (inr (lit "<e>Page failed to be simplified from HTML</e>")).
Proof.
  refine (proj2 (proj1 (@extract_failure_iff
                          (scripted (idle (Return (node_fetch_response
                                                     scenario_url 200
                                                     None []))))
                          scenario_html scenario_url None _)) _).
  - by_eval.
  - now left.
Defined.

Lemma fetchUrl_raw_passthrough_witness :
  @fetchUrl (scenario_world [scenario_img None] (scenario_markdown []))
            scenario_url DEFAULT_USER_AGENT_AUTONOMOUS true
  = Return {| content := scenario_html;
              prefix := raw_prefix (lit "text/html");
              imageUrls := None |}.
Proof.
  refine (@fetchUrl_raw_passthrough
            (scenario_world [scenario_img None] (scenario_markdown []))
            scenario_url DEFAULT_USER_AGENT_AUTONOMOUS true
            (node_fetch_response scenario_url 200 (Some (lit "text/html"))
                                 scenario_html)
            scenario_html _ _ _ _); by_eval.
Defined.



Section FetchUrlInversion.

Context {W : World}.

Lemma fetchUrl_prefix_cases u userAgent forceRaw r :
  fetchUrl u userAgent forceRaw = Return r ->
  prefix r = [] \/ exists contentType, prefix r = raw_prefix contentType.
Proof.
  unfold fetchUrl.
  destruct (fetch u userAgent) as [resp|]; cbn [bind]; [|discriminate].
  destruct (negb (ok resp)); [discriminate|].
  destruct (text resp) as [body|]; cbn [bind]; [|discriminate].
  destruct (isHtml_of body (contentType_of resp) && negb forceRaw).
  - destruct (extractContentFromHtml body u) as [[extracted|message]|];
      cbn [bind]; intros [= <-]; now left.
  - destruct (isPdf_of (contentType_of resp) && negb forceRaw).
    + destruct (arrayBuffer resp) as [bytes|]; cbn [bind]; [|discriminate].
      destruct (pdfparse bytes); cbn [bind]; intros [= <-]; now left.
    + intros [= <-]. right. now eexists.
Qed.

(** X8: a result of [fetchUrl] has a prefix only when it is the body
    passed through: either the prefix is empty, or the content is the body
    as retrieved, the prefix names the content type, and there is no image
    list. *)
Theorem fetchUrl_result_shape u userAgent forceRaw r :
  fetchUrl u userAgent forceRaw = Return r ->
  prefix r = []
  \/ exists resp body,
      fetch u userAgent = Return resp
      /\ text resp = Return body
      /\ r = {| content := body;
                prefix := raw_prefix (contentType_of resp);
                imageUrls := None |}.
Proof.
  unfold fetchUrl.
  destruct (fetch u userAgent) as [resp|]; cbn [bind]; [|discriminate].
  destruct (negb (ok resp)); [discriminate|].
  destruct (text resp) as [body|] eqn:Hbody; cbn [bind]; [|discriminate].
  destruct (isHtml_of body (contentType_of resp) && negb forceRaw).
  - destruct (extractContentFromHtml body u) as [[extracted|message]|];
      cbn [bind]; intros [= <-]; now left.
  - destruct (isPdf_of (contentType_of resp) && negb forceRaw).
    + destruct (arrayBuffer resp) as [bytes|]; cbn [bind]; [|discriminate].
      destruct (pdfparse bytes); cbn [bind]; intros [= <-]; now left.
    + intros [= <-]. right. now exists resp, body.
Qed.

(** X9: [fetchUrl] raises one error of its own, the one for a status
    without success; every other rejection is the error of the call it was
    waiting for: the request, the reading of the body, the extraction from
    HTML, or the reading and the parsing of the PDF. *)
Theorem fetchUrl_rejection_origin u userAgent forceRaw e :
  fetchUrl u userAgent forceRaw = Throw e ->
  fetch u userAgent = Throw e
  \/ exists resp,
      fetch u userAgent = Return resp
      /\ ((ok resp = false
           /\ e = ErrorObject (fetch_failure u (status resp)))
          \/ (ok resp = true
              /\ (text resp = Throw e
                  \/ exists body,
                      text resp = Return body
                      /\ (extractContentFromHtml body u = Throw e
                          \/ arrayBuffer resp = Throw e
                          \/ exists bytes,
                              arrayBuffer resp = Return bytes
                              /\ pdfparse bytes = Throw e)))).
Proof.
  unfold fetchUrl.
  destruct (fetch u userAgent) as [resp|e0]; cbn [bind];
    [|intros [= ->]; now left].
  intros H. right. exists resp. split; [reflexivity|].
  destruct (ok resp); cbn [negb] in H; [right|left].
  - split; [reflexivity|].
    destruct (text resp) as [body|e0]; cbn [bind] in H;
      [right|injection H as ->; now left].
    exists body. split; [reflexivity|].
    destruct (isHtml_of body (contentType_of resp) && negb forceRaw).
    + destruct (extractContentFromHtml body u) as [[extracted|message]|e0];
        cbn [bind] in H; try discriminate.
      injection H as ->. now left.
    + destruct (isPdf_of (contentType_of resp) && negb forceRaw);
        [|discriminate].
      destruct (arrayBuffer resp) as [bytes|e0]; cbn [bind] in H;
        [|injection H as ->; right; now left].
      destruct (pdfparse bytes) as [parsed|e0] eqn:Hparse; cbn [bind] in H;
        [discriminate|].
      injection H as ->. right. right. now exists bytes.
  - injection H as <-. now split.
Qed.

End FetchUrlInversion.

Lemma fetchUrl_result_shape_witness :
  prefix {| content := lit "abc"; prefix := raw_prefix (lit "text/plain");
            imageUrls := None |} = []
  \/ exists resp body,
      @fetch (plain_text_world (lit "http://a.b") (lit "abc"))
             (lit "http://a.b") DEFAULT_USER_AGENT_AUTONOMOUS = Return resp
      /\ text resp = Return body
      /\ {| content := lit "abc"; prefix := raw_prefix (lit "text/plain");
            imageUrls := None |}
         = {| content := body; prefix := raw_prefix (contentType_of resp);
              imageUrls := None |}.
Proof.
  apply (@fetchUrl_result_shape
           (plain_text_world (lit "http://a.b") (lit "abc"))
           (lit "http://a.b") DEFAULT_USER_AGENT_AUTONOMOUS false).
  by_eval.
Defined.

Lemma fetchUrl_rejection_origin_witness :
  let resp := node_fetch_response (lit "http://a.b") 500 None [] in
  let e := ErrorObject (lit "Failed to fetch http://a.b - status code 500") in
  @fetch (scripted (idle (Return resp)))
         (lit "http://a.b") DEFAULT_USER_AGENT_AUTONOMOUS = Throw e
  \/ exists resp',
      @fetch (scripted (idle (Return resp)))
             (lit "http://a.b") DEFAULT_USER_AGENT_AUTONOMOUS = Return resp'
      /\ ((ok resp' = false
           /\ e = ErrorObject (fetch_failure (lit "http://a.b")
                                             (status resp')))
          \/ (ok resp' = true
              /\ (text resp' = Throw e
                  \/ exists body,
                      text resp' = Return body
                      /\ (@extractContentFromHtml
                            (scripted (idle (Return resp)))
                            body (lit "http://a.b") = Throw e
                          \/ arrayBuffer resp' = Throw e
                          \/ exists bytes,
                              arrayBuffer resp' = Return bytes
                              /\ @pdfparse (scripted (idle (Return resp)))
                                           bytes = Throw e)))).
Proof.
  intros resp e.
  apply (@fetchUrl_rejection_origin
           (scripted (idle (Return resp)))
           (lit "http://a.b") DEFAULT_USER_AGENT_AUTONOMOUS false e).
  by_eval.
Defined.

(* ===================================================================== *)
(** ** More on the handler of [tools/call] *)
(* ===================================================================== *)

Lemma string_eqb_spec (a b : js_string) : string_eqb a b = true <-> a = b.
Proof.
  unfold string_eqb. destruct (list_eq_dec N.eq_dec a b); split;
    congruence.
Qed.

Lemma join_includes sep (f : js_string -> js_string) x l :
  In x l -> includes (join sep (List.map f l)) (f x) = true.
Proof.
  intros Hin. apply includes_spec. induction l as [|y l IH]; [easy|].
  destruct Hin as [->|Hin].
  - destruct l as [|z l]; cbn.
    + exists [], []. now rewrite app_nil_r.
    + now exists [], (sep ++ join sep (List.map f (z :: l))).
  - destruct (IH Hin) as (a & b & Hab). destruct l as [|z l]; [easy|].
    exists (f y ++ sep ++ a), b.
    change (join sep (List.map f (y :: z :: l)))
      with (f y ++ sep ++ join sep (List.map f (z :: l))).
    rewrite Hab. now rewrite <- !app_assoc.
Qed.

Section HandlerFacts.

Context {W : World}.

(** X10: a call that names another tool than "fetch" is answered with
    "Error: Unknown tool: <name>" and [isError], whatever its arguments;
    nothing is validated or fetched for it. *)
Theorem call_tool_unknown_tool params :
  name params <> lit "fetch" ->
  call_tool params
  = {| result_text := lit "Error: " ++ lit "Unknown tool: " ++ name params;
       isError := true |}.
Proof.
  intros Hname. unfold call_tool, call_tool_try.
  destruct (string_eqb (name params) (lit "fetch")) eqn:E.
  - now apply string_eqb_spec in E.
  - reflexivity.
Qed.

(** X11: a call of "fetch" whose arguments are missing, or lack [url], or
    have a [url] that is not a URL, a [maxLength] that is at most 0 or
    more than 1000000, or a negative [startIndex], is answered with
    "Error: Invalid arguments: <zod error>" and [isError]. *)
Theorem call_tool_invalid_arguments params :
  name params = lit "fetch" ->
  (arguments params = None
   \/ exists a,
       arguments params = Some a
       /\ (arg_url a = None
           \/ (exists u, arg_url a = Some u /\ is_url u = false)
           \/ (exists m, arg_maxLength a = Some m
                         /\ (m <= 0 \/ 1000000 < m))
           \/ (exists s, arg_startIndex a = Some s /\ s < 0))) ->
  call_tool params
  = {| result_text :=
         lit "Error: " ++ lit "Invalid arguments: "
             ++ zod_error (arguments params);
       isError := true |}.
Proof.
  intros Hname Hbad.
  assert (Hnone : FetchArgsSchema_safeParse (arguments params) = None).
  { unfold FetchArgsSchema_safeParse.
    destruct Hbad as [->|(a & -> & Hbad)]; [reflexivity|].
    destruct (arg_url a) as [u|]; [|reflexivity].
    match goal with |- context [if ?c then _ else _] => destruct c eqn:E end;
      [exfalso|reflexivity].
    apply andb_prop in E as [E Hs0]. apply andb_prop in E as [E Hmax].
    apply andb_prop in E as [Hu0 Hm0].
    apply Z.leb_le in Hs0, Hmax. apply Z.ltb_lt in Hm0.
    destruct Hbad as [Hu|[(u' & [= <-] & Hu)|[(m & Em & Hm)|(s & Es & Hs)]]].
    - discriminate.
    - congruence.
    - rewrite Em in *. lia.
    - rewrite Es in *. lia. }
  unfold call_tool, call_tool_try.
  now rewrite Hname, string_eqb_refl, Hnone.
Qed.


(** X13: the text of an answer shows on its own whether it is an error:
    with [isError] it starts with "Error: ", and without [isError] it
    starts with "Content" (of "Contents of <url>:" or of the prefix
    "Content type ..."). *)
Theorem call_tool_text_head params :
  starts_with (result_text (call_tool params))
              (if isError (call_tool params)
               then lit "Error: " else lit "Content") = true.
Proof.
  unfold call_tool.
  destruct (call_tool_try params) as [t|e] eqn:Htry; cbn [result_text isError].
  - unfold call_tool_try in Htry.
    destruct (negb (string_eqb (name params) (lit "fetch")));
      [discriminate|].
    destruct (FetchArgsSchema_safeParse (arguments params)) as [data|];
      [|discriminate].
    destruct (fetchUrl (url data) DEFAULT_USER_AGENT_AUTONOMOUS (raw data))
      as [r|] eqn:Hf; cbn [bind] in Htry; [|discriminate].
    injection Htry as <-. unfold success_text.
    destruct (fetchUrl_prefix_cases _ _ _ Hf) as [->|(ct & ->)];
      cbn [app].
    + change (lit "Contents of ") with (lit "Content" ++ lit "s of ").
      rewrite <- app_assoc. apply starts_with_app.
    + unfold raw_prefix.
      change (lit "Content type ") with (lit "Content" ++ lit " type ").
      rewrite <- !app_assoc. apply starts_with_app.
  - apply starts_with_app.
Qed.

(** X14: pagination does not touch the images: whatever the window, every
    image URL of the result of [fetchUrl] is listed in the answer, on a
    line "- <url>". *)
Theorem images_listed_whatever_window params data r image :
  name params = lit "fetch" ->
  FetchArgsSchema_safeParse (arguments params) = Some data ->
  fetchUrl (url data) DEFAULT_USER_AGENT_AUTONOMOUS (raw data) = Return r ->
  In image (image_list r) ->
  includes (result_text (call_tool params)) (lit "- " ++ image) = true.
Proof.
  intros Hname Hparse Hf Hin.
  rewrite (call_tool_fetched params Hname Hparse Hf). cbn [result_text].
  unfold success_text, imagesSection_of.
  unfold image_list in Hin. destruct (imageUrls r) as [urls|]; [|easy].
  destruct urls as [|first rest]; [easy|].
  change (length (first :: rest) >? 0) with true. cbn iota.
  rewrite !app_assoc. apply includes_app_l.
  now apply (join_includes nl (fun url => lit "- " ++ url)).
Qed.


End HandlerFacts.

Lemma call_tool_unknown_tool_witness :
  @call_tool (plain_text_world (lit "http://a.b") (lit "abc"))
             {| name := lit "search"; arguments := None |}
  = {| result_text := lit "Error: Unknown tool: search"; isError := true |}.
Proof.
  apply (@call_tool_unknown_tool
           (plain_text_world (lit "http://a.b") (lit "abc"))
           {| name := lit "search"; arguments := None |}).
  by_eval.
Defined.

Lemma call_tool_invalid_arguments_witness :
  @call_tool (plain_text_world (lit "http://a.b") (lit "abc"))
             (fetch_call (lit "http://a.b") (Some 0) None)
  = {| result_text := lit "Error: Invalid arguments: ZodError";
       isError := true |}.
Proof.
  apply (@call_tool_invalid_arguments
           (plain_text_world (lit "http://a.b") (lit "abc"))
           (fetch_call (lit "http://a.b") (Some 0) None) eq_refl).
  right. eexists. split; [reflexivity|].
  right. right. left. exists 0. split; [reflexivity|]. left. lia.
Defined.


Lemma images_listed_whatever_window_witness :
  includes
    (result_text
       (@call_tool (scenario_world (numbered_imgs 3)
                                   (scenario_markdown (lit "A")))
                   (fetch_call scenario_url (Some 5) (Some 7))))
    (lit "- http://example.com/2.png") = true.
Proof.
  apply (@images_listed_whatever_window
           (scenario_world (numbered_imgs 3) (scenario_markdown (lit "A")))
           (fetch_call scenario_url (Some 5) (Some 7))
           {| url := scenario_url; maxLength := 5; startIndex := 7;
              raw := false |}
           {| content := scenario_markdown (lit "A"); prefix := [];
              imageUrls := Some [ lit "http://example.com/1.png";
                                  lit "http://example.com/2.png";
                                  lit "http://example.com/3.png" ] |}
           (lit "http://example.com/2.png")); by_eval.
Defined.


(* ===================================================================== *)
(** ** The command line and the start of the server *)
(* ===================================================================== *)

Section CommandLine.

Implicit Types (args pre post : list js_string) (mode : Mode).

(** The two values that [--mode] accepts. *)
Lemma parseArgs_loop_flag_valid v rest mode :
  v = lit "stdio" \/ v = lit "http" ->
  parseArgs_loop (lit "--mode" :: v :: rest) mode
  = parseArgs_loop (v :: rest)
                   (if string_eqb v (lit "stdio") then stdio else http).
Proof.
  intros [->| ->]; reflexivity.
Qed.

(** X16: without any argument "--mode", the mode is the one the loop
    started with, which is stdio for [parseArgs]. *)
Theorem parseArgs_no_flag argv :
  ~ In (lit "--mode") (slice argv 2 (length argv)) ->
  parseArgs argv = Go stdio.
Proof.
  unfold parseArgs. generalize (slice argv 2 (length argv)) as args.
  generalize stdio as mode.
  intros mode args. induction args as [|arg rest IH]; intros Hno;
    [reflexivity|].
  cbn [parseArgs_loop].
  destruct (string_eqb arg (lit "--mode")) eqn:E.
  - apply string_eqb_spec in E. exfalso. apply Hno. now left.
  - apply IH. intros Hin. apply Hno. now right.
Qed.

(** Where the loop ends the process: at a value of "--mode" that is
    neither "stdio" nor "http". *)
Lemma parseArgs_loop_exit_shape args mode stderr code :
  parseArgs_loop args mode = Exit stderr code ->
  code = 1
  /\ exists pre v post,
      args = pre ++ lit "--mode" :: v :: post
      /\ v <> lit "stdio" /\ v <> lit "http"
      /\ stderr = invalid_mode v.
Proof.
  revert mode. induction args as [|arg rest IH]; intros mode H;
    [discriminate|].
  cbn [parseArgs_loop] in H.
  assert (Hrest : forall m, parseArgs_loop rest m = Exit stderr code ->
                            code = 1
                            /\ exists pre v post,
                                arg :: rest
                                = pre ++ lit "--mode" :: v :: post
                                /\ v <> lit "stdio" /\ v <> lit "http"
                                /\ stderr = invalid_mode v).
  { intros m Hm. destruct (IH _ Hm) as (Hc & pre & v & post & -> & Hv).
    split; [exact Hc|]. now exists (arg :: pre), v, post. }
  destruct (string_eqb arg (lit "--mode")) eqn:E; [|now apply (Hrest mode)].
  apply string_eqb_spec in E as ->.
  destruct rest as [|v rest']; [discriminate|].
  destruct (string_eqb v (lit "stdio")) eqn:E1; [now apply (Hrest stdio)|].
  destruct (string_eqb v (lit "http")) eqn:E2; [now apply (Hrest http)|].
  injection H as <- <-. split; [reflexivity|].
  exists [], v, rest'. repeat split.
  - intros ->. now rewrite string_eqb_refl in E1.
  - intros ->. now rewrite string_eqb_refl in E2.
Qed.


(** X18: the last "--mode" decides: when the arguments up to a last flag
    are accepted, the flag followed by "stdio" or "http" gives this
    mode, whatever was chosen before. *)
Theorem parseArgs_last_flag_wins pre mode mode' v chosen :
  parseArgs_loop (pre ++ [lit "--mode"]) mode = Go mode' ->
  (v = lit "stdio" /\ chosen = stdio) \/ (v = lit "http" /\ chosen = http) ->
  parseArgs_loop (pre ++ [lit "--mode"; v]) mode = Go chosen.
Proof.
  intros Hpre Hv. revert mode Hpre.
  induction pre as [|arg pre IH]; intros mode Hpre.
  - destruct Hv as [[-> ->]|[-> ->]]; reflexivity.
  - cbn [app parseArgs_loop] in *.
    destruct (string_eqb arg (lit "--mode")); [|now apply IH].
    destruct pre as [|w pre'].
    + vm_compute in Hpre. discriminate Hpre.
    + cbn [app] in *.
      destruct (string_eqb w (lit "stdio")); [now apply IH|].
      destruct (string_eqb w (lit "http")); [now apply IH|].
      discriminate Hpre.
Qed.

(** X19: a last "--mode" that has no value after it is ignored, unless
    it is itself the value of a flag before it. *)
Theorem parseArgs_trailing_flag_ignored pre mode :
  (forall p, pre <> p ++ [lit "--mode"]) ->
  parseArgs_loop (pre ++ [lit "--mode"]) mode = parseArgs_loop pre mode.
Proof.
  revert mode. induction pre as [|arg pre IH]; intros mode Hlast.
  - reflexivity.
  - assert (Hlast' : forall p, pre <> p ++ [lit "--mode"]).
    { intros p ->. now apply (Hlast (arg :: p)). }
    cbn [app parseArgs_loop].
    destruct (string_eqb arg (lit "--mode")) eqn:E; [|now apply IH].
    apply string_eqb_spec in E as ->.
    destruct pre as [|w pre']; [now destruct (Hlast [])|].
    cbn [app].
    destruct (string_eqb w (lit "stdio")); [now apply IH|].
    destruct (string_eqb w (lit "http")); [now apply IH|].
    reflexivity.
Qed.

(** X20: the process serves exactly when the arguments give the mode
    stdio and the connection of the transport fulfils; with the mode http
    it leaves with "Fatal error running server: Error: HTTP server mode not
    implemented yet" whatever the transport would do; and whenever it
    leaves, the exit code is 1. *)
Theorem main_outcome connect argv :
  (main connect argv = Serving
   <-> parseArgs argv = Go stdio /\ exists done, connect = Return done)
  /\ (parseArgs argv = Go http ->
      main connect argv
      = Exited (lit "Fatal error running server: Error: HTTP server mode not implemented yet"
                    ++ nl) 1)
  /\ (forall stderr code, main connect argv = Exited stderr code -> code = 1).
Proof.
  unfold main. split; [|split].
  - destruct (parseArgs argv) as [[|]|err c]; cbn.
    + destruct connect as [done|e]; cbn; split.
      * intros _. split; [reflexivity|]. now exists done.
      * reflexivity.
      * discriminate.
      * intros (_ & done & [=]).
    + split; [discriminate|]. now intros ([=] & _).
    + split; [discriminate|]. now intros ([=] & _).
  - intros ->. reflexivity.
  - intros stderr code. destruct (parseArgs argv) as [mode|err c] eqn:Hp.
    + destruct mode; [destruct connect|]; cbn; congruence.
    + intros [= <- <-]. unfold parseArgs in Hp.
      now destruct (parseArgs_loop_exit_shape _ _ Hp).
Qed.

End CommandLine.

Lemma parseArgs_no_flag_witness :
  parseArgs [lit "node"; lit "index.js"; lit "--verbose"] = Go stdio.
Proof.
  apply (@parseArgs_no_flag [lit "node"; lit "index.js"; lit "--verbose"]).
  by_eval.
Defined.


Lemma parseArgs_last_flag_wins_witness :
  parseArgs_loop [lit "--mode"; lit "http"; lit "--mode"; lit "stdio"] stdio
  = Go stdio.
Proof.
  apply (@parseArgs_last_flag_wins [lit "--mode"; lit "http"] stdio http
                                   (lit "stdio") stdio).
  - reflexivity.
  - left. split; reflexivity.
Defined.

Lemma parseArgs_trailing_flag_ignored_witness :
  parseArgs_loop [lit "--mode"; lit "http"; lit "--mode"] stdio = Go http.
Proof.
  refine (eq_trans (@parseArgs_trailing_flag_ignored
                      [lit "--mode"; lit "http"] stdio _) eq_refl).
  intros p H. apply (f_equal (@rev js_string)) in H.
  rewrite rev_app_distr in H. vm_compute in H. discriminate H.
Defined.

Lemma main_outcome_witness :
  main (Return tt) [lit "node"; lit "index.js"; lit "--mode"; lit "http"]
  = Exited (lit "Fatal error running server: Error: HTTP server mode not implemented yet"
                ++ nl) 1
  /\ main (Return tt) [lit "node"; lit "index.js"] = Serving.
Proof.
  split.
  - apply (proj1 (proj2 (@main_outcome
                           (Return tt)
                           [lit "node"; lit "index.js"; lit "--mode";
                            lit "http"]))).
    reflexivity.
  - apply (proj2 (proj1 (@main_outcome (Return tt)
                                       [lit "node"; lit "index.js"]))).
    split; [reflexivity|]. now exists tt.
Defined.
